(** * zip-fill: postal-code lookup, REST batch endpoint and usage metrics

    A shallow embedding of the JavaScript sources

      - the embeddable client, class [ZipFill] ([load], [lookup]);
      - the API server ([normalizeZip], [lookupZip], [POST /api/batch]);
      - the metrics collector, class [Metrics] ([recordRequest],
        [recordLookup], [_cleanOldHours], [_pruneTopZips], [_percentile]);

    and the properties the specification states about them.

    Conventions.  A JavaScript string is the sequence of its code units; the
    embedding keeps to one-byte code units, so a string is a [string] of the
    Standard Library.  Integer-valued numbers are [Z]; counters are taken
    below 2^53, where [++] is exact.  The one exception the values at hand
    can raise is the [TypeError] of [String(v)]; the calls it can end are
    given with their completion.  The only arithmetic whose rounding is
    observable, the index computation of [_percentile], is carried out in
    binary64 with the kernel's primitive floats.  [console.*] output is not
    part of the state. *)

From Stdlib Require Import ZArith Ascii String List Bool Lia.
From Stdlib Require Import DecimalString Sorted Permutation.
From Stdlib Require Import PrimFloat FloatOps SpecFloat Uint63.
From stdpp Require Import base option list gmap strings.

Set Warnings "-register-all".

Local Open Scope string_scope.
Local Open Scope list_scope.
Local Open Scope Z_scope.

(** ** JavaScript values *)

Module JS.

(** The values a caller or a JSON body can hand to the program.  [VNum z] is
    the number whose value is the integer [z]; [VObj] is a plain object with
    its own properties.  No value is callable. *)
Inductive value : Type :=
  | VUndefined
  | VNull
  | VBool (b : bool)
  | VNum (z : Z)
  | VNaN
  | VStr (s : string)
  | VArr (elems : list value)
  | VObj (props : list (string * value)).

(** [!v] is [negb (truthy v)]. *)
Definition truthy (v : value) : bool :=
  match v with
  | VUndefined | VNull | VNaN => false
  | VBool b => b
  | VNum z => negb (z =? 0)
  | VStr s => negb (String.eqb s "")
  | VArr _ | VObj _ => true
  end.

Definition isArray (v : value) : bool :=
  match v with VArr _ => true | _ => false end.

(** The string [String(v)] returns, where it returns one ([String_throws]
    below says where it does not).  An array joins the conversions of its
    elements with a comma, [undefined] and [null] elements giving the empty
    string.  A number is printed as the decimal numeral of its integer,
    which is what JavaScript prints for the safe integers
    ([exact_numbers] below). *)
Fixpoint ToString (v : value) : string :=
  match v with
  | VUndefined => "undefined"
  | VNull => "null"
  | VBool true => "true"
  | VBool false => "false"
  | VNum z => NilZero.string_of_int (Z.to_int z)
  | VNaN => "NaN"
  | VStr s => s
  | VArr elems =>
      String.concat ","
        (List.map (fun e => match e with
                            | VUndefined | VNull => ""
                            | _ => ToString e
                            end) elems)
  | VObj _ => "[object Object]"
  end.

(** Own-property read [o[k]] on a value; [None] is [undefined]. *)
Fixpoint assoc {A} (k : string) (l : list (string * A)) : option A :=
  match l with
  | [] => None
  | (k', a) :: l' => if String.eqb k k' then Some a else assoc k l'
  end.

(** *** Where [String(v)] throws, and where the numeral is exact *)

(** A plain object is converted by the method found under [toString].  The
    inherited one answers ["[object Object]"].  An own property of that name
    hides it, and as no value here is callable the conversion goes on to
    [valueOf], which, own or inherited, yields no primitive: [String] throws
    a [TypeError].  An array converts its elements, and throws when one of
    them does. *)
Fixpoint String_throws (v : value) : bool :=
  match v with
  | VObj props =>
      match assoc "toString" props with
      | Some _ => true
      | None => false
      end
  | VArr elems => existsb String_throws elems
  | _ => false
  end.

(** The numbers [String(v)] prints are safe integers, of magnitude at most
    2^53 - 1.  Larger numbers print with the fewest digits that identify
    them, and from 10^21 on in exponent form; [ToString] does not follow
    them there. *)
Fixpoint exact_numbers (v : value) : bool :=
  match v with
  | VNum z => Z.abs z <=? 9007199254740991
  | VArr elems => forallb exact_numbers elems
  | _ => true
  end.

(** How a call completes: with the value it returns, or with the
    [TypeError] it throws. *)
Inductive completion (A : Type) : Type :=
  | Normal (a : A)
  | TypeError.

Arguments Normal {A} a.
Arguments TypeError {A}.

Definition and_then {A B : Type} (c : completion A) (f : A -> completion B)
    : completion B :=
  match c with
  | Normal a => f a
  | TypeError => TypeError
  end.

Notation "'let!' x ':=' c 'in' f" := (and_then c (fun x => f))
  (at level 10, x name, c at level 100, f at level 200).

(** [String(v)] as a call. *)
Definition String_call (v : value) : completion string :=
  if String_throws v then TypeError else Normal (ToString v).

(** [arr.map(f)] where [f] can throw: the first exception ends the call. *)
Fixpoint map_calls {A B : Type} (f : A -> completion B) (l : list A)
    : completion (list B) :=
  match l with
  | [] => Normal []
  | a :: l' =>
      let! b := f a in
      let! bs := map_calls f l' in
      Normal (b :: bs)
  end.

(** *** String.prototype methods used by the program *)

(** White space and line terminators among the one-byte code units:
    TAB, LF, VT, FF, CR, SP and NBSP. *)
Definition is_white_space (c : ascii) : bool :=
  let n := N_of_ascii c in
  ((9 <=? n) && (n <=? 13) || (n =? 32) || (n =? 160))%N.

Fixpoint trimStart (s : string) : string :=
  match s with
  | String c r => if is_white_space c then trimStart r else s
  | EmptyString => EmptyString
  end.

Fixpoint trimEnd (s : string) : string :=
  match s with
  | String c r =>
      match trimEnd r with
      | EmptyString => if is_white_space c then EmptyString else String c EmptyString
      | r' => String c r'
      end
  | EmptyString => EmptyString
  end.

Definition trim (s : string) : string := trimEnd (trimStart s).

Fixpoint repeat_char (c : ascii) (n : nat) : string :=
  match n with
  | O => EmptyString
  | S n' => String c (repeat_char c n')
  end.

(** [s.padStart(maxLength, c)] for a one-character filler. *)
Definition padStart (maxLength : nat) (c : ascii) (s : string) : string :=
  if (maxLength <=? String.length s)%nat then s
  else String.append (repeat_char c (maxLength - String.length s)) s.

(** [s.slice(0, n)]. *)
Definition slice0 (n : nat) (s : string) : string := String.substring 0 n s.

(** [\d]. *)
Definition is_digit (c : ascii) : bool :=
  let n := N_of_ascii c in ((48 <=? n) && (n <=? 57))%N.

Fixpoint all_digits (s : string) : bool :=
  match s with
  | EmptyString => true
  | String c r => is_digit c && all_digits r
  end.

(** [/^\d{5}$/.test(s)]. *)
Definition test_5_digits (s : string) : bool :=
  (String.length s =? 5)%nat && all_digits s.

End JS.
Import JS.

(** ** Data model *)

Record Location := mkLocation { city : string; state : string; county : string }.

(** A value of the lookup artifact: a single record or an array of them. *)
Inductive entry :=
  | One (loc : Location)
  | Many (locs : list Location).

Record LookupResult := mkResult {
  zip : string;
  locations : list Location;
  hasMultiple : bool
}.

(** [Array.isArray(locations) ? locations : [locations]]. *)
Definition entry_locations (e : entry) : list Location :=
  match e with
  | One loc => [loc]
  | Many locs => locs
  end.

(** [Array.isArray(locations) && locations.length > 1]. *)
Definition entry_hasMultiple (e : entry) : bool :=
  match e with
  | One _ => false
  | Many locs => (1 <? length locs)%nat
  end.

(** ** Normalization *)

(** [String(zip).trim().padStart(5, '0').slice(0, 5)], the expression both
    the client and the server evaluate: its value, where [String(zip)]
    returns. *)
Definition normalized (zip : value) : string :=
  slice0 5 (padStart 5 "0" (trim (ToString zip))).

(** Server, [normalizeZip]: what it returns, where [String(zip)] returns;
    [None] is [null]. *)
Definition normalizeZip (zip : value) : option string :=
  if negb (truthy zip) then None
  else
    let normalized := normalized zip in
    if test_5_digits normalized then Some normalized else None.

(** Client: the constant [normalizedZip] of [ZipFill.lookup] together with the
    pattern test that follows it; [None] is the early [return null]. *)
Definition lookup_normalizedZip (zip : value) : option string :=
  let normalizedZip := normalized zip in
  if negb (test_5_digits normalizedZip) then None else Some normalizedZip.

(** ** The embeddable client: class [ZipFill] *)

(** The parsed artifact: a JSON object from 5-digit keys to entries. *)
Abbreviation table := (gmap string entry).

(** Why a load can fail: [fetch] rejects, the response is not [ok]
    ([Failed to load: <status>]), or [response.json()] rejects. *)
Inductive load_error :=
  | NetworkError
  | HttpError (status : Z)
  | ParseError.

(** The state of the promise stored in [this.loadPromise]. *)
Inductive promise :=
  | Pending
  | Fulfilled
  | Rejected (e : load_error).

Record ZipFill := mkZipFill {
  data : option table;
  loaded : bool;
  loadPromise : option promise
}.

(** [constructor(data = null)]. *)
Definition new_ZipFill (data : option table) : ZipFill :=
  {| data := data; loaded := false; loadPromise := None |}.

(** An instance together with its environment: the value of the global
    [__ZIPFILL_DATA_URL__] when it is defined, and the URLs handed to [fetch]
    so far, oldest first. *)
Record client := mkClient {
  this : ZipFill;
  ZIPFILL_DATA_URL : option string;
  fetched : list string
}.

Definition new_client (data : option table) (bundled : option string) : client :=
  {| this := new_ZipFill data; ZIPFILL_DATA_URL := bundled; fetched := [] |}.

(** What the network answers to a [fetch]: a rejection, or a response with
    its [ok] flag, its status and the result of parsing its body as JSON. *)
Inductive fetch_result :=
  | FetchRejects
  | FetchResponse (ok : bool) (status : Z) (json : option table).

Definition _getDefaultDataUrl (w : client) : string :=
  match ZIPFILL_DATA_URL w with
  | Some u => u
  | None => "https://unpkg.com/zip-fill@latest/dist/zip-data.min.json"
  end.

(** [url || this._getDefaultDataUrl()]. *)
Definition dataUrl (w : client) (url : option string) : string :=
  match url with
  | Some u => if String.eqb u "" then _getDefaultDataUrl w else u
  | None => _getDefaultDataUrl w
  end.

(** [load(url)] up to its first suspension.  The result is the new state and
    the promise the caller waits on: already fulfilled, or the one stored in
    [this.loadPromise]. *)
Definition load (w : client) (url : option string) : client * promise :=
  if loaded (this w) then (w, Fulfilled)
  else
    match loadPromise (this w) with
    | Some p => (w, p)
    | None =>
        match data (this w) with
        | Some d =>
            ({| this := {| data := Some d; loaded := true;
                           loadPromise := Some Fulfilled |};
                ZIPFILL_DATA_URL := ZIPFILL_DATA_URL w;
                fetched := fetched w |}, Fulfilled)
        | None =>
            ({| this := {| data := None; loaded := false;
                           loadPromise := Some Pending |};
                ZIPFILL_DATA_URL := ZIPFILL_DATA_URL w;
                fetched := fetched w ++ [dataUrl w url] |}, Pending)
        end
    end.

(** The outcome of the [try] block for a given answer of the network. *)
Definition fetch_outcome (r : fetch_result) : load_error + table :=
  match r with
  | FetchRejects => inl NetworkError
  | FetchResponse ok status json =>
      if negb ok then inl (HttpError status)
      else match json with
           | None => inl ParseError
           | Some d => inr d
           end
  end.

(** The suspended body of [load] resumes when the network answers. *)
Definition fetch_settles (w : client) (r : fetch_result) : client :=
  match loadPromise (this w) with
  | Some Pending =>
      match fetch_outcome r with
      | inr d =>
          {| this := {| data := Some d; loaded := true;
                        loadPromise := Some Fulfilled |};
             ZIPFILL_DATA_URL := ZIPFILL_DATA_URL w;
             fetched := fetched w |}
      | inl e =>
          {| this := {| data := data (this w); loaded := loaded (this w);
                        loadPromise := Some (Rejected e) |};
             ZIPFILL_DATA_URL := ZIPFILL_DATA_URL w;
             fetched := fetched w |}
      end
  | _ => w
  end.

(** What can happen to an instance over time. *)
Inductive event :=
  | CallLoad (url : option string)
  | Settles (r : fetch_result).

Definition step (w : client) (ev : event) : client :=
  match ev with
  | CallLoad url => fst (load w url)
  | Settles r => fetch_settles w r
  end.

Definition run (w : client) (evs : list event) : client := fold_left step evs w.

(** [lookup(zip)]: what it returns, where [String(zip)] returns; [None] is
    [null]. *)
Definition lookup (this : ZipFill) (zip : value) : option LookupResult :=
  match loaded this, data this with
  | true, Some data =>
      match lookup_normalizedZip zip with
      | None => None
      | Some normalizedZip =>
          match data !! normalizedZip with
          | None => None
          | Some locations =>
              Some {| zip := normalizedZip;
                      locations := entry_locations locations;
                      hasMultiple := entry_hasMultiple locations |}
          end
      end
  | _, _ => None
  end.

(** ** The API server *)

(** What [lookupZip] returns: an error descriptor [{error, zip}] or a result. *)
Inductive outcome :=
  | ErrorDesc (error : string) (zip : value)
  | Found (r : LookupResult).

(** [lookupZip(zip)]: what it returns, where [String(zip)] returns. *)
Definition lookupZip (zipData : table) (zip : value) : outcome :=
  match normalizeZip zip with
  | None => ErrorDesc "Invalid zip code format" zip
  | Some normalized =>
      match zipData !! normalized with
      | None => ErrorDesc "Zip code not found" (VStr normalized)
      | Some locations =>
          Found {| zip := normalized;
                   locations := entry_locations locations;
                   hasMultiple := entry_hasMultiple locations |}
      end
  end.

(** *** The calls with their completions *)

(** Client: the constant [normalizedZip] of [ZipFill.lookup] and the pattern
    test that follows it, as evaluated. *)
Definition lookup_normalizedZip_call (zip : value) : completion (option string) :=
  let! s := String_call zip in
  let normalizedZip := slice0 5 (padStart 5 "0" (trim s)) in
  if negb (test_5_digits normalizedZip) then Normal None else Normal (Some normalizedZip).

(** [lookup(zip)] as a call. *)
Definition lookup_call (this : ZipFill) (zip : value)
    : completion (option LookupResult) :=
  if negb (loaded this) then Normal None
  else
    match data this with
    | None => Normal None
    | Some data =>
        let! normalizedZip := lookup_normalizedZip_call zip in
        match normalizedZip with
        | None => Normal None
        | Some normalizedZip =>
            match data !! normalizedZip with
            | None => Normal None
            | Some locations =>
                Normal (Some {| zip := normalizedZip;
                                locations := entry_locations locations;
                                hasMultiple := entry_hasMultiple locations |})
            end
        end
    end.

(** [normalizeZip(zip)] as a call. *)
Definition normalizeZip_call (zip : value) : completion (option string) :=
  if negb (truthy zip) then Normal None
  else
    let! s := String_call zip in
    let normalized := slice0 5 (padStart 5 "0" (trim s)) in
    Normal (if test_5_digits normalized then Some normalized else None).

(** [lookupZip(zip)] as a call. *)
Definition lookupZip_call (zipData : table) (zip : value) : completion outcome :=
  let! normalized := normalizeZip_call zip in
  match normalized with
  | None => Normal (ErrorDesc "Invalid zip code format" zip)
  | Some normalized =>
      match zipData !! normalized with
      | None => Normal (ErrorDesc "Zip code not found" (VStr normalized))
      | Some locations =>
          Normal (Found {| zip := normalized;
                           locations := entry_locations locations;
                           hasMultiple := entry_hasMultiple locations |})
      end
  end.

(** *** The batch route *)

Inductive payload :=
  | ErrorBody (error : string)
  | ResultsBody (results : list outcome).

Record response := mkResponse { statusCode : Z; body : payload }.

Definition array_elems (v : value) : list value :=
  match v with VArr elems => elems | _ => [] end.

(** [app.post('/api/batch', ...)] on the properties of the parsed JSON
    object [req.body]; a body without a [zips] property, among them an empty
    object and an array, reads [zips] as [undefined].  The handler sends the
    response it returns here; when it throws it sends none, and Express
    answers the request with status 500. *)
Definition api_batch (zipData : table) (req_body : list (string * value))
    : completion response :=
  let zips := default VUndefined (assoc "zips" req_body) in
  if negb (truthy zips) || negb (isArray zips) then
    Normal {| statusCode := 400; body := ErrorBody "Missing or invalid zips array" |}
  else if (100 <? length (array_elems zips))%nat then
    Normal {| statusCode := 400; body := ErrorBody "Maximum 100 zips per request" |}
  else
    let! results := map_calls (lookupZip_call zipData) (array_elems zips) in
    Normal {| statusCode := 200; body := ResultsBody results |}.

(** ** Arrays and objects as the metrics code uses them *)

Section Sort.
Context {A : Type}.

(** [before a b]: the comparator does not put [a] after [b]. *)
Variable before : A -> A -> bool.

Fixpoint insert_sorted (x : A) (l : list A) : list A :=
  match l with
  | [] => [x]
  | y :: l' => if before x y then x :: l else y :: insert_sorted x l'
  end.

(** [Array.prototype.sort]: a stable sort, here by insertion from the
    right, so that of two elements the comparator does not separate the
    one that came first stays first. *)
Fixpoint js_sort (l : list A) : list A :=
  match l with
  | [] => []
  | x :: l' => insert_sorted x (js_sort l')
  end.
End Sort.

(** The comparator [(a, b) => a - b] on numbers. *)
Definition ascending (a b : Z) : bool := a - b <=? 0.

(** The comparator [(a, b) => b[1] - a[1]] on entries. *)
Definition by_count_desc (a b : string * Z) : bool := b.2 - a.2 <=? 0.

(** The default comparator on strings: code unit by code unit. *)
Definition by_code_units (a b : string) : bool := String.leb a b.

(** An object whose enumeration order matters: its own properties in the
    order [Object.keys] and [Object.entries] list them, array-index keys
    first in ascending numeric order, then the other keys in creation
    order.  Keys are codes and state names; the names [Object.prototype]
    defines are not among them. *)
Definition jsobj (V : Type) : Type := list (string * V).

Fixpoint digits_to_N (s : string) (acc : N) : N :=
  match s with
  | EmptyString => acc
  | String c r => digits_to_N r (10 * acc + (N_of_ascii c - 48))%N
  end.

(** The array index a key denotes, when it is a canonical numeric string
    below 2^32 - 1: ["90210"] is one, ["00501"] is not. *)
Definition array_index (k : string) : option N :=
  match k with
  | EmptyString => None
  | String c r =>
      if all_digits k && (negb (Ascii.eqb c "0") || String.eqb r "")
      then let n := digits_to_N k 0 in
           if (n <=? 4294967294)%N then Some n else None
      else None
  end.

Section Obj.
Context {V : Type}.

Definition obj_get (o : jsobj V) (k : string) : option V := assoc k o.

Definition has_key (o : jsobj V) (k : string) : bool :=
  existsb (fun e => String.eqb k e.1) o.

Fixpoint obj_replace (o : jsobj V) (k : string) (v : V) : jsobj V :=
  match o with
  | [] => []
  | (k', v') :: o' =>
      if String.eqb k k' then (k', v) :: o' else (k', v') :: obj_replace o' k v
  end.

(** A new array-index key goes before the first key that is not an array
    index or is a larger one. *)
Fixpoint obj_add_index (o : jsobj V) (n : N) (k : string) (v : V) : jsobj V :=
  match o with
  | [] => [(k, v)]
  | (k', v') :: o' =>
      match array_index k' with
      | Some n' =>
          if (n' <? n)%N then (k', v') :: obj_add_index o' n k v
          else (k, v) :: o
      | None => (k, v) :: o
      end
  end.

(** [o[k] = v]. *)
Definition obj_set (o : jsobj V) (k : string) (v : V) : jsobj V :=
  if has_key o k then obj_replace o k v
  else match array_index k with
       | Some n => obj_add_index o n k v
       | None => o ++ [(k, v)]
       end.

(** [Object.fromEntries(entries)]. *)
Definition fromEntries (entries : list (string * V)) : jsobj V :=
  fold_left (fun o e => obj_set o e.1 e.2) entries [].
End Obj.

(** ** The metrics collector: class [Metrics] *)

(** A bucket of [hourlyRequests]: a count, or the [NaN] that [++] leaves on
    a missing property. *)
Inductive bucket :=
  | Count (n : Z)
  | CountNaN.

Record Metrics := mkMetrics {
  startTime : Z;
  requests_total : Z;
  requests_byEndpoint : gmap string Z;
  requests_byStatus : gmap Z Z;
  requests_byMethod : gmap string Z;
  responseTimes_total : list Z;
  responseTimes_byEndpoint : gmap string (list Z);
  lookups_total : Z;
  lookups_found : Z;
  lookups_notFound : Z;
  lookups_topZips : jsobj Z;
  lookups_topStates : jsobj Z;
  hourlyRequests : gmap string bucket;
  maxResponseTimes : nat
}.

(** [constructor()], at time [now]. *)
Definition new_Metrics (now : Z) : Metrics :=
  {| startTime := now;
     requests_total := 0;
     requests_byEndpoint := ∅;
     requests_byStatus := ∅;
     requests_byMethod := ∅;
     responseTimes_total := [];
     responseTimes_byEndpoint := ∅;
     lookups_total := 0;
     lookups_found := 0;
     lookups_notFound := 0;
     lookups_topZips := [];
     lookups_topStates := [];
     hourlyRequests := ∅;
     maxResponseTimes := 1000 |}.

(** *** Helpers *)

Fixpoint strip_prefix (p s : string) : option string :=
  match p, s with
  | EmptyString, _ => Some s
  | String a p', String b s' => if Ascii.eqb a b then strip_prefix p' s' else None
  | String _ _, EmptyString => None
  end.

Fixpoint drop_digits (s : string) : string :=
  match s with
  | String c r => if is_digit c then drop_digits r else s
  | EmptyString => EmptyString
  end.

(** [path.replace(/\/api\/lookup\/\d+/, '/api/lookup/:zip')]: the leftmost
    match, with the longest run of digits, is replaced. *)
Fixpoint _normalizeEndpoint (path : string) : string :=
  match path with
  | EmptyString => EmptyString
  | String c r =>
      match strip_prefix "/api/lookup/" path with
      | Some (String d rest) =>
          if is_digit d then String.append "/api/lookup/:zip" (drop_digits rest)
          else String c (_normalizeEndpoint r)
      | _ => String c (_normalizeEndpoint r)
      end
  end.

(** [while (keys.length > 168) delete this.hourlyRequests[keys.shift()]]. *)
Fixpoint clean_loop (keys : list string) (h : gmap string bucket) : gmap string bucket :=
  match keys with
  | [] => h
  | k :: keys' =>
      if (168 <? length keys)%nat then clean_loop keys' (delete k h) else h
  end.

Definition _cleanOldHours (h : gmap string bucket) : gmap string bucket :=
  let keys := js_sort by_code_units (map fst (map_to_list h)) in
  clean_loop keys h.

Definition _pruneTopZips (topZips : jsobj Z) : jsobj Z :=
  let entries := firstn 500 (js_sort by_count_desc topZips) in
  fromEntries entries.

(** [(o[k] || 0) + 1]. *)
Definition bump {K} `{Countable K} (o : gmap K Z) (k : K) : gmap K Z :=
  <[k := default 0 (o !! k) + 1]> o.

Definition obj_bump (o : jsobj Z) (k : string) : jsobj Z :=
  obj_set o k (default 0 (obj_get o k) + 1).

(** [!this.hourlyRequests[hour]]. *)
Definition bucket_falsy (b : option bucket) : bool :=
  match b with
  | Some (Count n) => n =? 0
  | Some CountNaN | None => true
  end.

(** [this.hourlyRequests[hour]++]. *)
Definition bucket_incr (h : gmap string bucket) (hour : string) : gmap string bucket :=
  match h !! hour with
  | Some (Count n) => <[hour := Count (n + 1)]> h
  | Some CountNaN | None => <[hour := CountNaN]> h
  end.

(** The hourly tracking of [recordRequest]: on the first request of an
    hour the bucket is created and old hours are cleaned, then the bucket is
    incremented. *)
Definition record_hour (h : gmap string bucket) (hour : string) : gmap string bucket :=
  let h' :=
    if bucket_falsy (h !! hour)
    then _cleanOldHours (<[hour := Count 0]> h)
    else h in
  bucket_incr h' hour.

(** [arr.push(x); if (arr.length > cap) arr.shift()]. *)
Definition push_capped (cap : nat) (arr : list Z) (x : Z) : list Z :=
  let arr' := arr ++ [x] in
  if (cap <? length arr')%nat then tl arr' else arr'.

(** *** [recordRequest] *)

Record request := mkRequest { path : string; method : string }.

(** [recordRequest(req, res, responseTimeMs)]; [hour] is what
    [_getCurrentHour()] reads off the clock during the call, and [status]
    is [res.statusCode]. *)
Definition recordRequest (hour : string) (req : request) (status : Z)
    (responseTimeMs : Z) (m : Metrics) : Metrics :=
  let endpoint := _normalizeEndpoint (path req) in
  {| startTime := startTime m;
     requests_total := requests_total m + 1;
     requests_byEndpoint := bump (requests_byEndpoint m) endpoint;
     requests_byStatus := bump (requests_byStatus m) status;
     requests_byMethod := bump (requests_byMethod m) (method req);
     responseTimes_total :=
       push_capped (maxResponseTimes m) (responseTimes_total m) responseTimeMs;
     responseTimes_byEndpoint :=
       <[endpoint := push_capped 100
                       (default [] (responseTimes_byEndpoint m !! endpoint))
                       responseTimeMs]> (responseTimes_byEndpoint m);
     lookups_total := lookups_total m;
     lookups_found := lookups_found m;
     lookups_notFound := lookups_notFound m;
     lookups_topZips := lookups_topZips m;
     lookups_topStates := lookups_topStates m;
     hourlyRequests := record_hour (hourlyRequests m) hour;
     maxResponseTimes := maxResponseTimes m |}.

(** *** [recordLookup] *)

(** The [result] argument as [recordLookup] reads it: its [error] and
    [locations] properties, each possibly missing. *)
Record lookup_arg := mkArg {
  arg_error : option string;
  arg_locations : option (list Location)
}.

(** [result && !result.error]; [None] is a [null] or [undefined] result. *)
Definition is_found (result : option lookup_arg) : bool :=
  match result with
  | None => false
  | Some r =>
      match arg_error r with
      | None => true
      | Some e => String.eqb e ""
      end
  end.

(** [result.locations && result.locations[0]], then [.state]. *)
Definition first_state (result : option lookup_arg) : option string :=
  match result with
  | Some r =>
      match arg_locations r with
      | Some (loc :: _) => Some (state loc)
      | _ => None
      end
  | None => None
  end.

(** The fields of [this.lookups] replaced, the rest of the state kept. *)
Definition with_lookups (m : Metrics) (total found notFound : Z)
    (topZips topStates : jsobj Z) : Metrics :=
  {| startTime := startTime m;
     requests_total := requests_total m;
     requests_byEndpoint := requests_byEndpoint m;
     requests_byStatus := requests_byStatus m;
     requests_byMethod := requests_byMethod m;
     responseTimes_total := responseTimes_total m;
     responseTimes_byEndpoint := responseTimes_byEndpoint m;
     lookups_total := total;
     lookups_found := found;
     lookups_notFound := notFound;
     lookups_topZips := topZips;
     lookups_topStates := topStates;
     hourlyRequests := hourlyRequests m;
     maxResponseTimes := maxResponseTimes m |}.

(** [recordLookup(zip, result)]; [zip] is the property key the argument
    converts to. *)
Definition recordLookup (zip : string) (result : option lookup_arg)
    (m : Metrics) : Metrics :=
  let total := lookups_total m + 1 in
  if is_found result then
    let topZips := obj_bump (lookups_topZips m) zip in
    let topStates :=
      match first_state result with
      | Some st => obj_bump (lookups_topStates m) st
      | None => lookups_topStates m
      end in
    with_lookups m total (lookups_found m + 1) (lookups_notFound m)
      (if (1000 <? length topZips)%nat then _pruneTopZips topZips else topZips)
      topStates
  else
    with_lookups m total (lookups_found m) (lookups_notFound m + 1)
      (lookups_topZips m) (lookups_topStates m).

(** How the server's outcomes look to [recordLookup]. *)
Definition arg_of_outcome (o : outcome) : lookup_arg :=
  match o with
  | ErrorDesc error _ => {| arg_error := Some error; arg_locations := None |}
  | Found r => {| arg_error := None; arg_locations := Some (locations r) |}
  end.

(** A [recordRequest] call with what it reads from its environment. *)
Record request_call := mkCall {
  call_hour : string;
  call_req : request;
  call_status : Z;
  call_ms : Z
}.

(** The calls the collector receives over its life. *)
Inductive metrics_call :=
  | Lookup (zip : string) (result : option lookup_arg)
  | Request (c : request_call).

Definition apply_call (m : Metrics) (c : metrics_call) : Metrics :=
  match c with
  | Lookup zip result => recordLookup zip result m
  | Request c =>
      recordRequest (call_hour c) (call_req c) (call_status c) (call_ms c) m
  end.

(** A run of calls, oldest first. *)
Definition run_calls (calls : list metrics_call) (m : Metrics) : Metrics :=
  fold_left apply_call calls m.

(** The hours the clock showed at the [recordRequest] calls of a run. *)
Fixpoint request_hours (calls : list metrics_call) : list string :=
  match calls with
  | [] => []
  | Lookup _ _ :: rest => request_hours rest
  | Request c :: rest => call_hour c :: request_hours rest
  end.

(** *** [_percentile] *)

(** The numbers the index computation can produce: an integer, or one of
    the three values that are none. *)
Inductive index_number :=
  | Int (z : Z)
  | PlusInfinity
  | MinusInfinity
  | NotANumber.

(** [Math.ceil] of a binary64 number. *)
Definition Math_ceil (x : float) : index_number :=
  match Prim2SF x with
  | S754_zero _ => Int 0
  | S754_infinity false => PlusInfinity
  | S754_infinity true => MinusInfinity
  | S754_nan => NotANumber
  | S754_finite sign m e =>
      let magnitude := Z.pos m in
      if 0 <=? e then
        Int (if sign then - (magnitude * 2 ^ e) else magnitude * 2 ^ e)
      else
        let q := magnitude / 2 ^ (- e) in
        let exact := magnitude mod 2 ^ (- e) =? 0 in
        Int (if sign then - q else if exact then q else q + 1)
  end.

(** [n - 1]; exact on the integers an array can be indexed with. *)
Definition minus_one (n : index_number) : index_number :=
  match n with
  | Int z => Int (z - 1)
  | other => other
  end.

(** [Math.max(0, n)]. *)
Definition Math_max_0 (n : index_number) : index_number :=
  match n with
  | Int z => Int (Z.max 0 z)
  | PlusInfinity => PlusInfinity
  | MinusInfinity => Int 0
  | NotANumber => NotANumber
  end.

(** [sorted[n]]; [None] is [undefined]. *)
Definition at_index (sorted : list Z) (n : index_number) : option Z :=
  match n with
  | Int z => if z <? 0 then None else sorted !! Z.to_nat z
  | _ => None
  end.

(** [sorted.length] as a number (an array has fewer than 2^32 elements). *)
Definition length_number (count : nat) : float :=
  PrimFloat.of_uint63 (Uint63.of_Z (Z.of_nat count)).

(** [Math.max(0, Math.ceil((p / 100) * sorted.length) - 1)], the quotient and
    the product rounded as binary64 rounds them. *)
Definition percentile_index (p : float) (count : nat) : index_number :=
  Math_max_0
    (minus_one
       (Math_ceil (PrimFloat.mul (PrimFloat.div p 100%float) (length_number count)))).

(** [_percentile(arr, p)] on whole-millisecond samples. *)
Definition _percentile (arr : list Z) (p : float) : option Z :=
  match arr with
  | [] => Some 0
  | _ =>
      let sorted := js_sort ascending arr in
      at_index sorted (percentile_index p (length sorted))
  end.

(** ** The specification's wording, for comparison with the code *)

Module Spec.

(** Step 2 of the normalization algorithm: left-pad with ['0'] characters
    until the length is at least 5 (no more than five are ever needed). *)
Fixpoint left_pad (fuel : nat) (s : string) : string :=
  match fuel with
  | O => s
  | S fuel' => if (5 <=? String.length s)%nat then s else left_pad fuel' (String "0" s)
  end.

(** Step 3: truncate to exactly the first 5 characters. *)
Definition truncate (s : string) : string :=
  string_of_list_ascii (firstn 5 (list_ascii_of_string s)).

(** Step 4: exactly 5 decimal digits. *)
Definition decimal_digits : list ascii :=
  ["0"; "1"; "2"; "3"; "4"; "5"; "6"; "7"; "8"; "9"]%char.

Definition five_decimal_digits (s : string) : bool :=
  let cs := list_ascii_of_string s in
  (length cs =? 5)%nat && forallb (fun c => existsb (Ascii.eqb c) decimal_digits) cs.

(** Steps 1 to 4 on an arbitrary input value; [None] is "invalid". *)
Definition normalize (s : value) : option string :=
  let r := truncate (left_pad 5 (trim (ToString s))) in
  if five_decimal_digits r then Some r else None.

(** The percentile index in exact arithmetic: the ceiling of [p * count / 100],
    less one, clamped at 0. *)
Definition ceil_div (a b : Z) : Z := - ((- a) / b).

Definition exact_index (p : Z) (count : nat) : Z :=
  Z.max 0 (ceil_div (p * Z.of_nat count) 100 - 1).

(** [c] is the ceiling of the binary64 number [x], the integer with
    [c - 1 < x <= c]: [x] is zero, or [±m * 2^e], an integer when [e] is not
    negative. *)
Definition is_ceiling (x : spec_float) (c : Z) : Prop :=
  match x with
  | S754_zero _ => c = 0
  | S754_finite sign m e =>
      let n := if sign then - Z.pos m else Z.pos m in
      if 0 <=? e then c = n * 2 ^ e
      else (c - 1) * 2 ^ (- e) < n <= c * 2 ^ (- e)
  | _ => False
  end.

(** The data model's invariant on a lookup table: every key matches
    [^\d{5}$] and every value sequence has length at least 1. *)
Definition table_invariant (t : table) : Prop :=
  forall k e, t !! k = Some e -> test_5_digits k = true /\ entry_locations e <> [].

End Spec.

(** The two inputs on which the server's guard [if (!zip) return null] and
    the client's unguarded expression part ways. *)
Definition empty_or_zero (v : value) : bool :=
  match v with
  | VStr s => String.eqb s ""
  | VNum z => z =? 0
  | _ => false
  end.

(** Whether a normalization result has the promised shape. *)
Definition five_digits_or_invalid (r : option string) : Prop :=
  match r with
  | None => True
  | Some s => String.length s = 5%nat /\ all_digits s = true
  end.

Definition index_number_eqb (a b : index_number) : bool :=
  match a, b with
  | Int x, Int y => x =? y
  | PlusInfinity, PlusInfinity
  | MinusInfinity, MinusInfinity
  | NotANumber, NotANumber => true
  | _, _ => false
  end.

(** The percentiles [getSummary] and [getPrometheus] ask for, as the number
    the code writes and as an integer. *)
Definition used_percentiles : list (float * Z) :=
  [(50%float, 50); (95%float, 95); (99%float, 99)].

(** The binary64 index agrees with the exact one, and falls inside the
    array, for the percentiles in use on every sample count up to the
    capacity of [responseTimes.total]. *)
Definition index_exact_on (pz : float * Z) (count : nat) : bool :=
  index_number_eqb (percentile_index pz.1 count) (Int (Spec.exact_index pz.2 count))
  && (Spec.exact_index pz.2 count <? Z.of_nat count).

(** A rejected request: status 400 and an error body, no results. *)
Definition rejected (r : completion response) : Prop :=
  exists msg, r = Normal {| statusCode := 400; body := ErrorBody msg |}.

(** An entry of a results sequence is a found result or an error descriptor. *)
Definition result_or_error (o : outcome) : Prop :=
  (exists r, o = Found r) \/ (exists error zip, o = ErrorDesc error zip).

(** The popularity mapping has distinct keys and at most 1000 of them. *)
Definition topZips_bounded (m : Metrics) : Prop :=
  NoDup (map fst (lookups_topZips m)) /\ (length (lookups_topZips m) <= 1000)%nat.

(** The clock does not run backwards: each hour key is at or after the one
    before it, in the order [sort()] puts the keys. *)
Fixpoint nondecreasing (hours : list string) : bool :=
  match hours with
  | a :: (b :: _) as rest => by_code_units a b && nondecreasing rest
  | _ => true
  end.

(** [keys] lists the keys of [h], each once. *)
Definition enumerates (keys : list string) (h : gmap string bucket) : Prop :=
  NoDup keys /\ forall k, k ∈ keys <-> is_Some (h !! k).

(** Every bucket of [h] is at or before [hour]. *)
Definition not_after (h : gmap string bucket) (hour : string) : Prop :=
  forall k, is_Some (h !! k) -> by_code_units k hour = true.

(** ** Sample data *)

Definition beverly_hills : Location :=
  {| city := "Beverly Hills"; state := "CA"; county := "Los Angeles" |}.
Definition schenectady : Location :=
  {| city := "Schenectady"; state := "NY"; county := "Schenectady" |}.
Definition rotterdam : Location :=
  {| city := "Rotterdam"; state := "NY"; county := "Schenectady" |}.

(** One entry of each artifact shape. *)
Definition sample_table : table :=
  <["90210" := One beverly_hills]> (<["12345" := Many [schenectady; rotterdam]]> ∅).

Definition sample_ZipFill : ZipFill :=
  {| data := Some sample_table; loaded := true; loadPromise := Some Fulfilled |}.

(** A successful lookup as [recordLookup] sees it, and a run of [n] of them
    on the distinct codes ["00000"], ["00001"], ... *)
Definition sample_found : option lookup_arg :=
  Some {| arg_error := None; arg_locations := Some [beverly_hills] |}.

Definition sample_zip (n : nat) : string := normalized (VNum (Z.of_nat n)).

Definition distinct_lookups (n : nat) : list metrics_call :=
  List.map (fun i => Lookup (sample_zip i) sample_found) (seq 0 n).

(** Requests in consecutive hours, starting on 1 June 2025 at midnight. *)
Definition two_digits (n : nat) : string :=
  padStart 2 "0" (ToString (VNum (Z.of_nat n))).

Definition hour_key (i : nat) : string :=
  String.append "2025-06-"
    (String.append (two_digits (1 + i / 24))
       (String.append "T" (two_digits (i mod 24)))).

Definition sample_call (i : nat) : request_call :=
  {| call_hour := hour_key i;
     call_req := {| path := "/api/lookup/90210"; method := "GET" |};
     call_status := 200;
     call_ms := 5 |}.

Definition sample_calls (n : nat) : list metrics_call :=
  List.map (fun i => Request (sample_call i)) (seq 0 n).

(** ** Further operations of the server, the collector and the build script *)

(** *** The single-lookup routes *)

(** What a single-lookup route sends: the result or descriptor of
    [lookupZip], or the bare error of a missing parameter. *)
Inductive lookup_payload :=
  | OutcomeBody (o : outcome)
  | MissingBody (error : string).

Record lookup_response := mkLookupResponse {
  lookup_status : Z;
  lookup_body : lookup_payload
}.

(** [result.error] read as a condition: a descriptor's message when it is
    not empty; a found result has no such property. *)
Definition has_error (o : outcome) : bool :=
  match o with
  | ErrorDesc error _ => negb (String.eqb error "")
  | Found _ => false
  end.

(** What both routes do once they hold a [zip]. *)
Definition respond_lookup (zipData : table) (zip : value)
    : completion lookup_response :=
  let! result := lookupZip_call zipData zip in
  if has_error result
  then Normal {| lookup_status := 404; lookup_body := OutcomeBody result |}
  else Normal {| lookup_status := 200; lookup_body := OutcomeBody result |}.

(** [app.get('/api/lookup/:zip', ...)]; [req.params.zip] is the path segment,
    a string that is never empty. *)
Definition api_lookup_param (zipData : table) (zip : string)
    : completion lookup_response :=
  respond_lookup zipData (VStr zip).

(** [app.get('/api/lookup', ...)]; [zip] is [req.query.zip], [undefined]
    when the parameter is absent. *)
Definition api_lookup_query (zipData : table) (zip : value)
    : completion lookup_response :=
  if negb (truthy zip)
  then Normal {| lookup_status := 400; lookup_body := MissingBody "Missing zip parameter" |}
  else respond_lookup zipData zip.

(** *** Events of the client *)

Definition is_CallLoad (ev : event) : bool :=
  match ev with CallLoad _ => true | Settles _ => false end.

(** *** The summary's ranking *)

Record top_entry := mkTop { key : string; count : Z }.

(** [_getTopN(obj, n)]. *)
Definition _getTopN (obj : jsobj Z) (n : nat) : list top_entry :=
  List.map (fun e => {| key := e.1; count := e.2 |})
    (firstn n (js_sort by_count_desc obj)).

(** *** The build script *)

(** A record of the raw data set; [zip_code] is a number or a string. *)
Record raw_record := mkRaw {
  zip_code : value;
  raw_city : string;
  raw_state : string;
  raw_county : string
}.

(** [String(record.zip_code).padStart(5, '0')]. *)
Definition record_zip (record : raw_record) : string :=
  padStart 5 "0" (ToString (zip_code record)).

Definition record_entry (record : raw_record) : Location :=
  {| city := raw_city record; state := raw_state record; county := raw_county record |}.

(** [e.city === entry.city && e.state === entry.state]. *)
Definition same_place (e entry : Location) : bool :=
  String.eqb (city e) (city entry) && String.eqb (state e) (state entry).

(** The property names an object literal inherits from [Object.prototype].
    Read as [obj[k]] they are never missing: code that tests [obj[k]] before
    it writes, as the build script and the counters do, finds a function
    there and not a missing entry.  On every other key a map holds what the
    object holds. *)
Definition Object_prototype : list string :=
  [ "constructor"; "hasOwnProperty"; "isPrototypeOf"; "propertyIsEnumerable";
    "toLocaleString"; "toString"; "valueOf"; "__proto__";
    "__defineGetter__"; "__defineSetter__"; "__lookupGetter__"; "__lookupSetter__" ].

Definition inherited (k : string) : bool :=
  existsb (String.eqb k) Object_prototype.

(** No padded code of the raw data is an inherited name. *)
Definition own_codes (rawData : list raw_record) : bool :=
  forallb (fun record => negb (inherited (record_zip record))) rawData.

(** The body of the loop over the raw records; [lookup] is exact on keys
    that are not [inherited]. *)
Definition add_record (lookup : gmap string (list Location)) (record : raw_record)
    : gmap string (list Location) :=
  let zip := record_zip record in
  let entry := record_entry record in
  let present := default [] (lookup !! zip) in
  if existsb (fun e => same_place e entry) present
  then <[zip := present]> lookup
  else <[zip := present ++ [entry]]> lookup.

Definition build_lookup (rawData : list raw_record) : gmap string (list Location) :=
  fold_left add_record rawData ∅.

(** [new Set(...)] spread into an array: the distinct elements in the order
    they first occur. *)
Fixpoint distinct (seen l : list string) : list string :=
  match l with
  | [] => []
  | x :: l' =>
      if existsb (String.eqb x) seen then distinct seen l'
      else x :: distinct (x :: seen) l'
  end.

(** [[...new Set(rawData.map(r => r.state))].sort()]. *)
Definition build_states (rawData : list raw_record) : list string :=
  js_sort by_code_units (distinct [] (List.map raw_state rawData)).

(** The artifact as a client or the server reads it back: every value is
    an array. *)
Definition artifact (lookup : gmap string (list Location)) : table :=
  Many <$> lookup.

(** An instance that has loaded the artifact built from [rawData]. *)
Definition loaded_from (rawData : list raw_record) : ZipFill :=
  {| data := Some (artifact (build_lookup rawData));
     loaded := true;
     loadPromise := Some Fulfilled |}.

(** *** Bookkeeping over a run of calls *)

(** The last [n] elements of an array. *)
Definition lastn {A} (n : nat) (l : list A) : list A := skipn (length l - n) l.

(** The response times handed to [recordRequest] over a run, oldest first,
    and those of the requests grouped under one endpoint. *)
Fixpoint request_times (calls : list metrics_call) : list Z :=
  match calls with
  | [] => []
  | Lookup _ _ :: rest => request_times rest
  | Request c :: rest => call_ms c :: request_times rest
  end.

Fixpoint endpoint_times (endpoint : string) (calls : list metrics_call) : list Z :=
  match calls with
  | [] => []
  | Lookup _ _ :: rest => endpoint_times endpoint rest
  | Request c :: rest =>
      if String.eqb (_normalizeEndpoint (path (call_req c))) endpoint
      then call_ms c :: endpoint_times endpoint rest
      else endpoint_times endpoint rest
  end.

(** The sum of the counts of a counter object. *)
Definition sum_counts {K} `{Countable K} (o : gmap K Z) : Z :=
  map_fold (fun _ v acc => v + acc) 0 o.

Definition obj_sum (o : jsobj Z) : Z := fold_right (fun e acc => e.2 + acc) 0 o.

(** How many of the lookups of a run were found and had a first location. *)
Fixpoint found_with_state (calls : list metrics_call) : Z :=
  match calls with
  | [] => 0
  | Lookup _ result :: rest =>
      (if is_found result
       then match first_state result with Some _ => 1 | None => 0 end
       else 0)
      + found_with_state rest
  | Request _ :: rest => found_with_state rest
  end.

(** How many requests of a run fell in the hour [hour]. *)
Definition requests_in (hour : string) (calls : list metrics_call) : Z :=
  Z.of_nat (count_occ string_dec (request_hours calls) hour).

(** [hour] is at or before every bucket of [h]. *)
Definition before_all (hour : string) (h : gmap string bucket) : bool :=
  forallb (by_code_units hour) (List.map fst (map_to_list h)).

(** The keys a call writes under are the collector's own: the hour, the
    endpoint and the method of a request, the code and the state of a
    lookup. *)
Definition own_keys (c : metrics_call) : bool :=
  match c with
  | Request c =>
      negb (inherited (call_hour c))
      && negb (inherited (_normalizeEndpoint (path (call_req c))))
      && negb (inherited (method (call_req c)))
  | Lookup zip result =>
      negb (inherited zip)
      && match first_state result with
         | Some st => negb (inherited st)
         | None => true
         end
  end.

(** A short run: requests in two hours and a lookup that is found. *)
Definition sample_run : list metrics_call :=
  [ Request (sample_call 0); Lookup "90210" sample_found;
    Request (sample_call 0); Request (sample_call 1) ].

(** A week of buckets, one request in each. *)
Definition week_of_buckets : gmap string bucket :=
  list_to_map (List.map (fun i => (hour_key i, Count 1)) (seq 0 168)).

(** The key under which a location is a duplicate of another. *)
Definition place (loc : Location) : string * string := (city loc, state loc).

(** A small raw data set: a number that needs padding, a border code with
    two cities, and a repeated record. *)
Definition sample_raw : list raw_record :=
  [ {| zip_code := VNum 501; raw_city := "Holtsville"; raw_state := "NY";
       raw_county := "Suffolk" |};
    {| zip_code := VStr "12345"; raw_city := "Schenectady"; raw_state := "NY";
       raw_county := "Schenectady" |};
    {| zip_code := VNum 90210; raw_city := "Beverly Hills"; raw_state := "CA";
       raw_county := "Los Angeles" |};
    {| zip_code := VNum 12345; raw_city := "Rotterdam"; raw_state := "NY";
       raw_county := "Schenectady" |};
    {| zip_code := VNum 12345; raw_city := "Schenectady"; raw_state := "NY";
       raw_county := "Albany" |} ].

(** * Properties *)

(** ** Strings *)

Lemma digit_not_white_space c : is_digit c = true -> is_white_space c = false.
Proof.
  destruct c as [b0 b1 b2 b3 b4 b5 b6 b7].
  destruct b0, b1, b2, b3, b4, b5, b6, b7; vm_compute; congruence.
Qed.

Lemma is_digit_decimal c :
  is_digit c = existsb (Ascii.eqb c) Spec.decimal_digits.
Proof.
  destruct c as [b0 b1 b2 b3 b4 b5 b6 b7].
  destruct b0, b1, b2, b3, b4, b5, b6, b7; reflexivity.
Qed.

Lemma trimStart_digits s : all_digits s = true -> trimStart s = s.
Proof.
  destruct s as [|c r]; simpl; [reflexivity|].
  intros H. apply andb_true_iff in H as [Hc _].
  now rewrite (digit_not_white_space c Hc).
Qed.

Lemma trimEnd_digits s : all_digits s = true -> trimEnd s = s.
Proof.
  induction s as [|c r IH]; simpl; [reflexivity|].
  intros H. apply andb_true_iff in H as [Hc Hr].
  rewrite (IH Hr). destruct r; [|reflexivity].
  now rewrite (digit_not_white_space c Hc).
Qed.

Lemma trim_digits s : all_digits s = true -> trim s = s.
Proof.
  intros H. unfold trim. rewrite (trimStart_digits s H). now apply trimEnd_digits.
Qed.

Lemma slice0_all s : slice0 (String.length s) s = s.
Proof.
  unfold slice0. induction s as [|c r IH]; simpl; [reflexivity|]. now rewrite IH.
Qed.

Lemma slice0_truncate s : slice0 5 s = Spec.truncate s.
Proof.
  unfold slice0, Spec.truncate.
  destruct s as [|c1 [|c2 [|c3 [|c4 [|c5 s]]]]]; try reflexivity.
  simpl. now destruct s.
Qed.

Lemma padStart_left_pad s : padStart 5 "0" s = Spec.left_pad 5 s.
Proof.
  destruct s as [|c1 [|c2 [|c3 [|c4 [|c5 s]]]]]; reflexivity.
Qed.

Lemma all_digits_forallb s :
  all_digits s = forallb (fun c => existsb (Ascii.eqb c) Spec.decimal_digits)
                   (list_ascii_of_string s).
Proof.
  induction s as [|c r IH]; [reflexivity|].
  cbn [all_digits list_ascii_of_string forallb].
  now rewrite IH, is_digit_decimal.
Qed.

Lemma length_list_ascii s : length (list_ascii_of_string s) = String.length s.
Proof. induction s; simpl; congruence. Qed.

Lemma test_5_digits_spec s : test_5_digits s = Spec.five_decimal_digits s.
Proof.
  unfold test_5_digits, Spec.five_decimal_digits.
  now rewrite length_list_ascii, all_digits_forallb.
Qed.

Lemma test_5_digits_inv s :
  test_5_digits s = true -> String.length s = 5%nat /\ all_digits s = true.
Proof.
  unfold test_5_digits. intros H. apply andb_true_iff in H as [Hl Hd].
  apply Nat.eqb_eq in Hl. now split.
Qed.

(** A string that already is five digits normalizes to itself. *)
Lemma normalized_five_digits s :
  test_5_digits s = true -> normalized (VStr s) = s.
Proof.
  intros H. destruct (test_5_digits_inv s H) as [Hl Hd].
  unfold normalized. cbn [ToString]. rewrite (trim_digits s Hd).
  unfold padStart. rewrite Hl. cbn [Nat.leb]. rewrite <- Hl at 1. apply slice0_all.
Qed.

(** ** Normalization *)

Lemma lookup_normalizedZip_spec v : lookup_normalizedZip v = Spec.normalize v.
Proof.
  unfold lookup_normalizedZip, Spec.normalize, normalized.
  rewrite slice0_truncate, padStart_left_pad, test_5_digits_spec.
  now destruct (Spec.five_decimal_digits _).
Qed.

Lemma normalizeZip_truthy v :
  truthy v = true -> normalizeZip v = lookup_normalizedZip v.
Proof.
  intros H. unfold normalizeZip, lookup_normalizedZip. rewrite H. cbn [negb].
  now destruct (test_5_digits _).
Qed.

Lemma normalizeZip_falsy v : truthy v = false -> normalizeZip v = None.
Proof. intros H. unfold normalizeZip. now rewrite H. Qed.

Lemma lookup_normalizedZip_shape v : five_digits_or_invalid (lookup_normalizedZip v).
Proof.
  unfold lookup_normalizedZip.
  destruct (test_5_digits (normalized v)) eqn:E; cbn; [|exact I].
  now apply test_5_digits_inv.
Qed.

Lemma normalizeZip_shape v : five_digits_or_invalid (normalizeZip v).
Proof.
  destruct (truthy v) eqn:E.
  - rewrite (normalizeZip_truthy v E). apply lookup_normalizedZip_shape.
  - rewrite (normalizeZip_falsy v E). exact I.
Qed.

Lemma normalizeZip_five_digits s :
  test_5_digits s = true -> normalizeZip (VStr s) = Some s.
Proof.
  intros H. unfold normalizeZip.
  assert (truthy (VStr s) = true) as ->.
  { destruct s; [discriminate H | reflexivity]. }
  cbn [negb]. rewrite (normalized_five_digits s H). now rewrite H.
Qed.


(** *** The calls and the values they return *)

Lemma falsy_converts v : truthy v = false -> String_throws v = false.
Proof. destruct v; cbn; congruence. Qed.

Lemma String_call_returns v :
  String_throws v = false -> String_call v = Normal (ToString v).
Proof. intros H. unfold String_call. now rewrite H. Qed.

Lemma lookup_normalizedZip_call_spec v :
  lookup_normalizedZip_call v
  = if String_throws v then TypeError else Normal (lookup_normalizedZip v).
Proof.
  unfold lookup_normalizedZip_call, String_call, lookup_normalizedZip, normalized.
  destruct (String_throws v); cbn [and_then]; [reflexivity|].
  now destruct (test_5_digits _).
Qed.

Lemma normalizeZip_call_spec v :
  normalizeZip_call v = if String_throws v then TypeError else Normal (normalizeZip v).
Proof.
  unfold normalizeZip_call, normalizeZip, normalized.
  destruct (truthy v) eqn:T; cbn [negb].
  - unfold String_call. now destruct (String_throws v).
  - now rewrite (falsy_converts v T).
Qed.

Lemma lookupZip_call_spec zipData v :
  lookupZip_call zipData v
  = if String_throws v then TypeError else Normal (lookupZip zipData v).
Proof.
  unfold lookupZip_call, lookupZip. rewrite normalizeZip_call_spec.
  destruct (String_throws v); cbn [and_then]; [reflexivity|].
  destruct (normalizeZip v) as [n|]; [|reflexivity].
  now destruct (zipData !! n).
Qed.

Lemma lookup_call_spec this v :
  lookup_call this v
  = match loaded this, data this with
    | true, Some _ => if String_throws v then TypeError else Normal (lookup this v)
    | _, _ => Normal None
    end.
Proof.
  unfold lookup_call, lookup. rewrite lookup_normalizedZip_call_spec.
  destruct (loaded this); cbn [negb]; [|reflexivity].
  destruct (data this) as [d|]; [|reflexivity].
  destruct (String_throws v); cbn [and_then]; [reflexivity|].
  destruct (lookup_normalizedZip v) as [n|]; [|reflexivity].
  now destruct (d !! n).
Qed.

(** C1 (as amended).  On every input value that [String] converts, its
    numbers safe integers, the client's normalization is the four steps of
    the specification: coerce to a string and trim, left-pad with ['0'] to
    length 5, truncate to the first 5 characters, validate against exactly
    5 decimal digits.  The server's [normalizeZip] is the same four steps on
    every truthy input and signals invalid on every falsy one.  Both return
    a 5-character all-digit string or signal invalid, and on ["123"],
    ["1234567"] and ["abc12"] both give ["00123"], ["12345"] (truncation, not
    rejection) and invalid. *)
Theorem normalization_steps :
  forall s : value,
    String_throws s = false ->
    exact_numbers s = true ->
    lookup_normalizedZip_call s = Normal (Spec.normalize s)
    /\ normalizeZip_call s = Normal (if truthy s then Spec.normalize s else None)
    /\ (exists r, lookup_normalizedZip_call s = Normal r /\ five_digits_or_invalid r)
    /\ (exists r, normalizeZip_call s = Normal r /\ five_digits_or_invalid r)
    /\ (lookup_normalizedZip_call (VStr "123") = Normal (Some "00123")
        /\ normalizeZip_call (VStr "123") = Normal (Some "00123"))
    /\ (lookup_normalizedZip_call (VStr "1234567") = Normal (Some "12345")
        /\ normalizeZip_call (VStr "1234567") = Normal (Some "12345"))
    /\ (lookup_normalizedZip_call (VStr "abc12") = Normal None
        /\ normalizeZip_call (VStr "abc12") = Normal None).
Proof.
  intros s C _.
  rewrite lookup_normalizedZip_call_spec, normalizeZip_call_spec, C.
  split; [f_equal; apply lookup_normalizedZip_spec|].
  split.
  { f_equal. destruct (truthy s) eqn:E.
    - rewrite (normalizeZip_truthy s E). apply lookup_normalizedZip_spec.
    - now apply normalizeZip_falsy. }
  split; [eexists; split; [reflexivity | apply lookup_normalizedZip_shape]|].
  split; [eexists; split; [reflexivity | apply normalizeZip_shape]|].
  repeat split; reflexivity.
Qed.

Lemma normalization_steps_number :
  lookup_normalizedZip_call (VNum 501) = Normal (Spec.normalize (VNum 501))
  /\ normalizeZip_call (VNum 501) = Normal (Spec.normalize (VNum 501))
  /\ (exists r, lookup_normalizedZip_call (VNum 501) = Normal r
                /\ five_digits_or_invalid r)
  /\ (exists r, normalizeZip_call (VNum 501) = Normal r /\ five_digits_or_invalid r)
  /\ (lookup_normalizedZip_call (VStr "123") = Normal (Some "00123")
      /\ normalizeZip_call (VStr "123") = Normal (Some "00123"))
  /\ (lookup_normalizedZip_call (VStr "1234567") = Normal (Some "12345")
      /\ normalizeZip_call (VStr "1234567") = Normal (Some "12345"))
  /\ (lookup_normalizedZip_call (VStr "abc12") = Normal None
      /\ normalizeZip_call (VStr "abc12") = Normal None).
Proof. apply (normalization_steps (VNum 501)); reflexivity. Defined.

(** C1, the claim as stated, fails on the server at the number [0]: the four
    steps give ["00000"], [normalizeZip] signals invalid. *)
Lemma normalizeZip_skips_steps_on_zero :
  Spec.normalize (VNum 0) = Some "00000" /\ normalizeZip_call (VNum 0) = Normal None.
Proof. split; reflexivity. Qed.



(** ** Lookup *)

Lemma entry_hasMultiple_length e :
  entry_hasMultiple e = true <-> (1 < length (entry_locations e))%nat.
Proof.
  destruct e as [loc|locs]; unfold entry_hasMultiple, entry_locations.
  - split; [discriminate | cbn; lia].
  - apply Nat.ltb_lt.
Qed.

(** Whatever [lookup] returns, on any table and any input, carries a
    normalized code and a consistent [hasMultiple]. *)
Lemma lookup_result_consistent this v r :
  lookup this v = Some r ->
  test_5_digits (zip r) = true
  /\ (hasMultiple r = true <-> (1 < length (locations r))%nat).
Proof.
  unfold lookup, lookup_normalizedZip.
  destruct (loaded this); [|discriminate].
  destruct (data this) as [t|]; [|discriminate].
  destruct (test_5_digits (normalized v)) eqn:E; cbn [negb]; [|discriminate].
  destruct (t !! normalized v) as [e|]; [|discriminate].
  intros [= <-]. cbn. split; [exact E | apply entry_hasMultiple_length].
Qed.

Lemma lookupZip_result_consistent t v r :
  lookupZip t v = Found r ->
  test_5_digits (zip r) = true
  /\ (hasMultiple r = true <-> (1 < length (locations r))%nat).
Proof.
  unfold lookupZip. destruct (normalizeZip v) as [n|] eqn:N; [|discriminate].
  pose proof (normalizeZip_shape v) as S. rewrite N in S. destruct S as [Sl Sd].
  destruct (t !! n) as [e|]; [|discriminate].
  intros [= <-]. cbn. split.
  - unfold test_5_digits. rewrite Sl, Sd. reflexivity.
  - apply entry_hasMultiple_length.
Qed.




(** The scenario of the specification: both locations with
    [hasMultiple = true]; an absent code; surrounding blanks ignored. *)
Example lookup_scenario :
  lookup sample_ZipFill (VStr "12345")
    = Some {| zip := "12345"; locations := [schenectady; rotterdam]; hasMultiple := true |}
  /\ lookup sample_ZipFill (VStr "99999") = None
  /\ lookup sample_ZipFill (VStr " 90210 ") = lookup sample_ZipFill (VStr "90210")
  /\ lookup sample_ZipFill (VStr "90210")
    = Some {| zip := "90210"; locations := [beverly_hills]; hasMultiple := false |}.
Proof. repeat split; vm_compute; reflexivity. Qed.



(** ** Batch *)

Lemma api_batch_array zipData req_body zips :
  assoc "zips" req_body = Some (VArr zips) ->
  api_batch zipData req_body =
    if (100 <? length zips)%nat
    then Normal {| statusCode := 400; body := ErrorBody "Maximum 100 zips per request" |}
    else
      let! results := map_calls (lookupZip_call zipData) zips in
      Normal {| statusCode := 200; body := ResultsBody results |}.
Proof. intros H. unfold api_batch. rewrite H. reflexivity. Qed.

Lemma api_batch_not_array zipData req_body :
  (forall zips, assoc "zips" req_body <> Some (VArr zips)) ->
  api_batch zipData req_body =
    Normal {| statusCode := 400; body := ErrorBody "Missing or invalid zips array" |}.
Proof.
  intros H. unfold api_batch.
  destruct (assoc "zips" req_body) as [v|]; [|reflexivity].
  destruct v; cbn; try reflexivity.
  - now destruct (negb b).
  - now destruct (negb (negb (z =? 0))).
  - now destruct (negb (negb (String.eqb s ""))).
  - now contradiction (H elems).
Qed.

Lemma lookupZip_result_or_error zipData z : result_or_error (lookupZip zipData z).
Proof.
  unfold lookupZip, result_or_error.
  destruct (normalizeZip z) as [n|]; [destruct (zipData !! n)|]; eauto.
Qed.

(** The map over the codes throws at the first code that [String] cannot
    convert, and otherwise returns the result of each code in its place. *)
Lemma map_calls_lookupZip zipData zips :
  map_calls (lookupZip_call zipData) zips
  = if existsb String_throws zips then TypeError
    else Normal (List.map (lookupZip zipData) zips).
Proof.
  induction zips as [|z zips IH]; [reflexivity|].
  cbn [map_calls existsb List.map]. rewrite lookupZip_call_spec, IH.
  destruct (String_throws z); cbn [and_then orb]; [reflexivity|].
  now destruct (existsb String_throws zips).
Qed.

(** C5.  The claim fails on a body whose [zips] passes both checks and
    holds a code that [String] cannot convert, here an object with a
    property [toString]: the handler throws in [normalizeZip] and sends
    neither a validation error nor results, although the code before it is
    found when looked up alone. *)
Theorem batch_throws_on_unconvertible_code :
  let zips := [VStr "90210"; VObj [("toString", VStr "x")]] in
  let req_body := [("zips", VArr zips)] in
  truthy (VArr zips) = true
  /\ isArray (VArr zips) = true
  /\ length zips = 2%nat
  /\ lookupZip_call sample_table (VStr "90210")
     = Normal (Found {| zip := "90210"; locations := [beverly_hills];
                        hasMultiple := false |})
  /\ lookupZip_call sample_table (VObj [("toString", VStr "x")]) = TypeError
  /\ api_batch sample_table req_body = TypeError.
Proof. repeat split; vm_compute; reflexivity. Qed.

(** What [POST /api/batch] does on every request body whose codes print
    exactly.  It rejects with status 400, and returns no results, when
    [zips] is missing, is not an array, or has more than 100 elements.
    Otherwise it throws when [String] cannot convert one of the codes, and
    else answers 200 with a results sequence of the same length and order
    as the input, each entry what [lookupZip] returns for the code at its
    position: a found result or an error descriptor [{error, zip}]. *)
Theorem batch_outcomes :
  forall (zipData : table) (req_body : list (string * value)),
    exact_numbers (default VUndefined (assoc "zips" req_body)) = true ->
    match assoc "zips" req_body with
    | Some (VArr zips) =>
        if (100 <? length zips)%nat
        then rejected (api_batch zipData req_body)
        else if existsb String_throws zips
        then api_batch zipData req_body = TypeError
        else
          exists results,
            api_batch zipData req_body
            = Normal {| statusCode := 200; body := ResultsBody results |}
            /\ length results = length zips
            /\ (forall i z, zips !! i = Some z ->
                   exists o, lookupZip_call zipData z = Normal o
                             /\ results !! i = Some o)
            /\ Forall result_or_error results
    | _ => rejected (api_batch zipData req_body)
    end.
Proof.
  intros zipData req_body _.
  destruct (assoc "zips" req_body) as [v|] eqn:E.
  - destruct v;
      try (rewrite api_batch_not_array by (rewrite E; congruence);
           unfold rejected; eauto).
    rewrite (api_batch_array zipData req_body elems E).
    destruct (100 <? length elems)%nat; [unfold rejected; eauto|].
    rewrite map_calls_lookupZip.
    destruct (existsb String_throws elems) eqn:T; [reflexivity|].
    exists (List.map (lookupZip zipData) elems).
    split; [reflexivity|]. split; [apply length_map|]. split.
    + intros i z Hz. exists (lookupZip zipData z). split.
      * rewrite lookupZip_call_spec.
        assert (String_throws z = false) as ->; [|reflexivity].
        destruct (String_throws z) eqn:Tz; [|reflexivity].
        rewrite <- T. symmetry. apply existsb_exists. exists z. split; [|exact Tz].
        apply list_elem_of_In. eapply list_elem_of_lookup_2. exact Hz.
      * rewrite list_lookup_fmap, Hz. reflexivity.
    + clear E T. induction elems as [|z zs IH]; constructor;
        [apply lookupZip_result_or_error | exact IH].
  - rewrite api_batch_not_array by (rewrite E; congruence).
    unfold rejected; eauto.
Qed.

(** The batch of the specification: a found code, then an absent one. *)
Lemma batch_outcomes_sample :
  exists results,
    api_batch sample_table [("zips", VArr [VStr "90210"; VStr "00000"])]
    = Normal {| statusCode := 200; body := ResultsBody results |}
    /\ length results = 2%nat
    /\ (forall i z, [VStr "90210"; VStr "00000"] !! i = Some z ->
           exists o, lookupZip_call sample_table z = Normal o
                     /\ results !! i = Some o)
    /\ Forall result_or_error results.
Proof.
  apply (batch_outcomes sample_table [("zips", VArr [VStr "90210"; VStr "00000"])]).
  reflexivity.
Defined.

Example batch_example :
  api_batch sample_table [("zips", VArr [VStr "90210"; VStr "00000"])]
  = Normal
      {| statusCode := 200;
         body := ResultsBody
                   [Found {| zip := "90210"; locations := [beverly_hills];
                             hasMultiple := false |};
                    ErrorDesc "Zip code not found" (VStr "00000")] |}.
Proof. vm_compute. reflexivity. Qed.

(** ** Loading *)

Lemma rejected_is_final w e ev :
  loaded (this w) = false ->
  loadPromise (this w) = Some (Rejected e) ->
  step w ev = w.
Proof.
  intros Hl Hp. destruct ev as [url|r]; cbn.
  - unfold load. now rewrite Hl, Hp.
  - unfold fetch_settles. now rewrite Hp.
Qed.

Lemma run_fixed w evs : (forall ev, step w ev = w) -> run w evs = w.
Proof.
  intros H. unfold run. induction evs as [|ev evs IH]; cbn; [reflexivity|].
  now rewrite H.
Qed.

(** An instance issues at most one [fetch] in its whole life, whatever is
    called and whatever the network answers: calls made while the load is in
    flight, and calls made after it settled either way, share its promise. *)
Lemma at_most_one_fetch d bundled evs :
  (length (fetched (run (new_client d bundled) evs)) <= 1)%nat.
Proof.
  assert (forall w,
    (loadPromise (this w) = None -> fetched w = []) ->
    (length (fetched w) <= 1)%nat ->
    (length (fetched (run w evs)) <= 1)%nat) as Inv.
  { induction evs as [|ev evs IH]; intros w H0 H1; [exact H1|].
    assert (forall w', w' = w -> (length (fetched (run w' evs)) <= 1)%nat) as Same.
    { intros w' ->. now apply IH. }
    cbn. destruct ev as [url|r]; cbn.
    - unfold load. destruct (loaded (this w)); [now apply Same|].
      destruct (loadPromise (this w)) eqn:P; [now apply Same|].
      destruct (data (this w)); apply IH; cbn; try discriminate; [exact H1|].
      rewrite (H0 eq_refl). cbn. lia.
    - unfold fetch_settles.
      destruct (loadPromise (this w)) as [[]|] eqn:P; try now apply Same.
      destruct (fetch_outcome r); apply IH; cbn; try discriminate; exact H1. }
  apply Inv; cbn; [reflexivity | lia].
Qed.

(** C2 (as amended).  If a call to [load] fails with a fetch or parse error,
    the operation fails with that error and leaves the table not loaded
    ([loaded] false, no data); the rejected promise stays in [loadPromise],
    so that every subsequent [load] call returns the same failed outcome and
    no later event triggers a new underlying fetch. *)
Theorem load_failure_is_kept :
  forall (bundled url : option string) (r : fetch_result) (e : load_error),
    fetch_outcome r = inl e ->
    let w0 := new_client None bundled in
    let w1 := (load w0 url).1 in
    let w2 := fetch_settles w1 r in
    (load w0 url).2 = Pending
    /\ fetched w1 = [dataUrl w0 url]
    /\ loaded (this w2) = false
    /\ data (this w2) = None
    /\ loadPromise (this w2) = Some (Rejected e)
    /\ (forall url', load w2 url' = (w2, Rejected e))
    /\ (forall evs, run w2 evs = w2).
Proof.
  intros bundled url r e Hr w0 w1 w2.
  assert (loaded (this w2) = false) as Hl.
  { subst w2 w1 w0. cbn. now rewrite Hr. }
  assert (loadPromise (this w2) = Some (Rejected e)) as Hp.
  { subst w2 w1 w0. cbn. now rewrite Hr. }
  repeat split; try reflexivity; try assumption.
  - subst w2 w1 w0. cbn. now rewrite Hr.
  - intros url'. unfold load. now rewrite Hl, Hp.
  - intros evs. apply run_fixed. intros ev. now apply (rejected_is_final w2 e).
Qed.

Lemma load_failure_is_kept_network :
  let w0 := new_client None None in
  let w1 := (load w0 None).1 in
  let w2 := fetch_settles w1 FetchRejects in
  (load w0 None).2 = Pending
  /\ fetched w1 = [dataUrl w0 None]
  /\ loaded (this w2) = false
  /\ data (this w2) = None
  /\ loadPromise (this w2) = Some (Rejected NetworkError)
  /\ (forall url', load w2 url' = (w2, Rejected NetworkError))
  /\ (forall evs, run w2 evs = w2).
Proof.
  apply (load_failure_is_kept None None FetchRejects NetworkError). reflexivity.
Defined.

(** C2, the claim as stated, fails: after a load that failed on the network,
    a second [load] returns the stored rejection, and the instance has still
    fetched once, not twice. *)
Lemma failed_load_is_not_retried :
  let w2 := fetch_settles (load (new_client None None) None).1 FetchRejects in
  loaded (this w2) = false
  /\ (load w2 None).2 = Rejected NetworkError
  /\ length (fetched (load w2 None).1) = 1%nat.
Proof. repeat split. Qed.

(** ** Sorting *)

Section SortFacts.
Context {A : Type} (before : A -> A -> bool).

Lemma insert_sorted_Permutation x l : Permutation (x :: l) (insert_sorted before x l).
Proof.
  induction l as [|y l IH]; cbn; [reflexivity|].
  destruct (before x y); [reflexivity|].
  rewrite perm_swap. now apply perm_skip.
Qed.

Lemma js_sort_Permutation l : Permutation l (js_sort before l).
Proof.
  induction l as [|x l IH]; cbn; [reflexivity|].
  rewrite <- insert_sorted_Permutation. now apply perm_skip.
Qed.

Lemma js_sort_length l : length (js_sort before l) = length l.
Proof. symmetry. apply Permutation_length, js_sort_Permutation. Qed.

Hypothesis before_total : forall a b, before a b = true \/ before b a = true.
Hypothesis before_trans :
  forall a b c, before a b = true -> before b c = true -> before a c = true.

Lemma insert_sorted_StronglySorted x l :
  StronglySorted (fun a b => before a b = true) l ->
  StronglySorted (fun a b => before a b = true) (insert_sorted before x l).
Proof.
  induction 1 as [|y l Hl IH Hy]; cbn; [repeat constructor|].
  destruct (before x y) eqn:E.
  - constructor; [now constructor|].
    constructor; [exact E|].
    eapply Forall_impl; [exact Hy|]. intros z Hz. now apply (before_trans x y z).
  - constructor; [exact IH|].
    eapply Permutation_Forall; [apply insert_sorted_Permutation|].
    constructor; [|exact Hy].
    destruct (before_total x y) as [F|F]; [congruence | exact F].
Qed.

Lemma js_sort_StronglySorted l :
  StronglySorted (fun a b => before a b = true) (js_sort before l).
Proof.
  induction l as [|x l IH]; cbn; [constructor|].
  now apply insert_sorted_StronglySorted.
Qed.

(** In a sorted array the first [n] elements come before all the others. *)
Lemma StronglySorted_firstn_skipn n l a b :
  StronglySorted (fun a b => before a b = true) l ->
  In a (firstn n l) -> In b (skipn n l) -> before a b = true.
Proof.
  intros Hs. revert n. induction Hs as [|y l Hl IH Hy]; intros n Ha Hb.
  - destruct n; contradiction Ha.
  - destruct n as [|n]; [contradiction Ha|]. cbn in Ha, Hb.
    destruct Ha as [<-|Ha]; [|now apply (IH n)].
    rewrite Forall_forall in Hy. apply Hy.
    apply list_elem_of_In. rewrite <- (firstn_skipn n l).
    apply in_or_app. now right.
Qed.

End SortFacts.

Lemma ascending_le a b : ascending a b = true <-> a <= b.
Proof. unfold ascending. rewrite Z.leb_le. lia. Qed.

Lemma js_sort_ascending_Sorted arr : Sorted Z.le (js_sort ascending arr).
Proof.
  apply StronglySorted_Sorted.
  assert (StronglySorted (fun a b => ascending a b = true) (js_sort ascending arr)) as H.
  { apply js_sort_StronglySorted.
    - intros a b. rewrite !ascending_le. lia.
    - intros a b c. rewrite !ascending_le. lia. }
  induction H as [|x l Hl IH Hx]; constructor; [exact IH|].
  eapply Forall_impl; [exact Hx|]. intros b. apply ascending_le.
Qed.

(** ** Percentiles *)

Lemma index_number_eqb_eq a b : index_number_eqb a b = true -> a = b.
Proof.
  destruct a, b; cbn; try discriminate; try reflexivity.
  intros H. apply Z.eqb_eq in H. now subst.
Qed.

Lemma used_percentiles_exact :
  forallb (fun pz => forallb (index_exact_on pz) (seq 1 1000)) used_percentiles = true.
Proof. vm_compute. reflexivity. Qed.

(** For the percentiles the summary asks for, rounding does not show: the
    index is the exact [ceil(p * count / 100) - 1] and an element is
    returned. *)
Lemma percentile_used (arr : list Z) (p : float) (z : Z) :
  In (p, z) used_percentiles ->
  (1 <= length arr <= 1000)%nat ->
  exists x,
    _percentile arr p = Some x
    /\ js_sort ascending arr !! Z.to_nat (Spec.exact_index z (length arr)) = Some x
    /\ In x arr.
Proof.
  intros Hp Hn.
  pose proof used_percentiles_exact as H.
  rewrite forallb_forall in H. specialize (H _ Hp).
  rewrite forallb_forall in H. specialize (H (length arr)).
  assert (In (length arr) (seq 1 1000)) as Hin by (apply in_seq; lia).
  apply H in Hin. unfold index_exact_on in Hin. cbn [fst snd] in Hin.
  apply andb_true_iff in Hin as [Hi Hlt].
  apply index_number_eqb_eq in Hi. apply Z.ltb_lt in Hlt.
  assert (0 <= Spec.exact_index z (length arr)) as H0 by (unfold Spec.exact_index; lia).
  destruct (js_sort ascending arr !! Z.to_nat (Spec.exact_index z (length arr)))
    as [x|] eqn:L.
  - exists x. split; [|split; [reflexivity|]].
    + destruct arr as [|a arr]; [cbn in Hn; lia|].
      unfold _percentile. rewrite js_sort_length, Hi. unfold at_index.
      destruct (Z.ltb_spec (Spec.exact_index z (length (a :: arr))) 0); [lia | exact L].
    + apply (Permutation_in x (Permutation_sym (js_sort_Permutation ascending arr))).
      apply list_elem_of_In. eapply list_elem_of_lookup_2. exact L.
  - apply lookup_ge_None in L. rewrite js_sort_length in L. lia.
Qed.




(** The clamp at work: the 0th percentile has product 0 and ceiling 0, and
    is taken at index 0, the smallest sample. *)
Example percentile_clamped :
  _percentile [40; 10; 50; 30; 20] 0%float = Some 10
  /\ Spec.is_ceiling (Prim2SF (PrimFloat.mul (PrimFloat.div 0%float 100%float)
                                 (length_number 5))) 0.
Proof. split; vm_compute; reflexivity. Qed.

(** The samples need not arrive in order. *)
Example percentile_unsorted :
  _percentile [40; 10; 50; 30; 20] 50%float = Some 30
  /\ _percentile [40; 10; 50; 30; 20] 95%float = Some 50
  /\ _percentile [40; 10; 50; 30; 20] 99%float = Some 50.
Proof. repeat split; vm_compute; reflexivity. Qed.

(** Rounding can show for other percentiles: on 100 samples, [7 / 100 * 100]
    evaluates to just above 7, so that the 7th percentile is taken at index
    7 where exact arithmetic gives index 6. *)
Example percentile_index_rounding :
  percentile_index 7%float 100 = Int 7 /\ Spec.exact_index 7 100 = 6.
Proof. split; vm_compute; reflexivity. Qed.

(** ** Objects in enumeration order *)

Section ObjFacts.
Context {V : Type}.
Implicit Types (o : jsobj V) (k : string) (v : V).

Lemma has_key_In o k : has_key o k = true <-> In k (map fst o).
Proof.
  unfold has_key. induction o as [|[k' v'] o IH]; cbn; [split; [discriminate|tauto]|].
  rewrite orb_true_iff, IH, String.eqb_eq. intuition congruence.
Qed.

Lemma obj_replace_keys o k v : map fst (obj_replace o k v) = map fst o.
Proof.
  induction o as [|[k' v'] o IH]; cbn; [reflexivity|].
  destruct (String.eqb k k'); cbn; congruence.
Qed.

Lemma obj_add_index_Permutation o n k v :
  Permutation ((k, v) :: o) (obj_add_index o n k v).
Proof.
  induction o as [|[k' v'] o IH]; cbn; [reflexivity|].
  destruct (array_index k') as [n'|]; [|reflexivity].
  destruct (n' <? n)%N; [|reflexivity].
  rewrite perm_swap. now apply perm_skip.
Qed.

(** Writing a new key adds one property, somewhere in the order. *)
Lemma obj_set_new o k v :
  has_key o k = false -> Permutation ((k, v) :: o) (obj_set o k v).
Proof.
  intros H. unfold obj_set. rewrite H.
  destruct (array_index k) as [n|]; [apply obj_add_index_Permutation|].
  apply Permutation_cons_append.
Qed.

(** Writing an existing key keeps the keys and their order. *)
Lemma obj_set_old o k v :
  has_key o k = true -> map fst (obj_set o k v) = map fst o.
Proof. intros H. unfold obj_set. rewrite H. apply obj_replace_keys. Qed.

Lemma obj_set_length o k v :
  length (obj_set o k v) = if has_key o k then length o else S (length o).
Proof.
  destruct (has_key o k) eqn:H.
  - rewrite <- (length_map fst), (obj_set_old o k v H). apply length_map.
  - symmetry. apply (Permutation_length (obj_set_new o k v H)).
Qed.

Lemma obj_set_NoDup o k v :
  NoDup (map fst o) -> NoDup (map fst (obj_set o k v)).
Proof.
  intros H. destruct (has_key o k) eqn:K.
  - now rewrite (obj_set_old o k v K).
  - pose proof (Permutation_map fst (obj_set_new o k v K)) as P.
    rewrite <- P. cbn. apply NoDup_cons. split; [|exact H].
    rewrite list_elem_of_In, <- has_key_In. congruence.
Qed.

Lemma fromEntries_Permutation (entries : list (string * V)) :
  NoDup (map fst entries) -> Permutation entries (fromEntries entries).
Proof.
  unfold fromEntries. rewrite <- (app_nil_l entries) at 1 2.
  generalize (@nil (string * V)) as acc.
  induction entries as [|[k v] l IH]; intros acc H; cbn.
  - now rewrite app_nil_r.
  - assert (has_key acc k = false) as K.
    { destruct (has_key acc k) eqn:K; [|reflexivity].
      rewrite map_app in H. apply NoDup_app in H as (_ & H & _).
      apply has_key_In, list_elem_of_In in K. apply H in K.
      contradict K. cbn. left. }
    assert (Permutation (acc ++ (k, v) :: l) (obj_set acc k v ++ l)) as P.
    { rewrite <- (obj_set_new acc k v K). symmetry. apply Permutation_middle. }
    rewrite P. apply IH.
    now rewrite <- (Permutation_map fst P).
Qed.

End ObjFacts.

Lemma by_count_desc_total a b :
  by_count_desc a b = true \/ by_count_desc b a = true.
Proof. unfold by_count_desc. rewrite !Z.leb_le. lia. Qed.

Lemma by_count_desc_trans a b c :
  by_count_desc a b = true -> by_count_desc b c = true -> by_count_desc a c = true.
Proof. unfold by_count_desc. rewrite !Z.leb_le. lia. Qed.

(** What [_pruneTopZips] keeps and what it drops. *)
Lemma _pruneTopZips_spec (topZips : jsobj Z) :
  NoDup (map fst topZips) ->
  let dropped := skipn 500 (js_sort by_count_desc topZips) in
  length (_pruneTopZips topZips) = Nat.min 500 (length topZips)
  /\ NoDup (map fst (_pruneTopZips topZips))
  /\ Permutation topZips (_pruneTopZips topZips ++ dropped)
  /\ (forall e d, In e (_pruneTopZips topZips) -> In d dropped -> d.2 <= e.2).
Proof.
  intros ND dropped. unfold _pruneTopZips.
  set (sorted := js_sort by_count_desc topZips) in *.
  assert (Permutation topZips sorted) as PS by apply js_sort_Permutation.
  assert (NoDup (map fst (firstn 500 sorted))) as NDf.
  { assert (NoDup (map fst sorted)) as NDs
      by now rewrite <- (Permutation_map fst PS).
    rewrite <- (firstn_skipn 500 sorted), map_app in NDs.
    now apply NoDup_app in NDs as (NDs & _). }
  pose proof (fromEntries_Permutation (firstn 500 sorted) NDf) as PF.
  split; [|split; [|split]].
  - rewrite <- (Permutation_length PF), length_firstn.
    now rewrite <- (Permutation_length PS).
  - now rewrite <- (Permutation_map fst PF).
  - rewrite <- PF. subst dropped. now rewrite firstn_skipn.
  - intros e d He Hd.
    apply (Permutation_in e (Permutation_sym PF)) in He.
    assert (by_count_desc e d = true) as B.
    { apply (StronglySorted_firstn_skipn by_count_desc 500 sorted e d);
        [|exact He|exact Hd].
      apply js_sort_StronglySorted;
        [apply by_count_desc_total | apply by_count_desc_trans]. }
    unfold by_count_desc in B. apply Z.leb_le in B. lia.
Qed.

(** ** Lookup statistics *)

Lemma obj_bump_length (o : jsobj Z) k :
  (length (obj_bump o k) <= S (length o))%nat.
Proof. unfold obj_bump. rewrite obj_set_length. destruct (has_key o k); lia. Qed.

Lemma obj_bump_NoDup (o : jsobj Z) k :
  NoDup (map fst o) -> NoDup (map fst (obj_bump o k)).
Proof. apply obj_set_NoDup. Qed.

(** What [recordLookup] does to the popularity mapping. *)
Lemma recordLookup_topZips zip result m :
  lookups_topZips (recordLookup zip result m) =
    if is_found result then
      let bumped := obj_bump (lookups_topZips m) zip in
      if (1000 <? length bumped)%nat then _pruneTopZips bumped else bumped
    else lookups_topZips m.
Proof. unfold recordLookup. now destruct (is_found result). Qed.

Lemma recordLookup_bounded zip result m :
  topZips_bounded m -> topZips_bounded (recordLookup zip result m).
Proof.
  intros [ND Len]. unfold topZips_bounded. rewrite recordLookup_topZips.
  destruct (is_found result); [|now split]. cbv zeta.
  pose proof (obj_bump_NoDup _ zip ND) as ND'.
  destruct (Nat.ltb_spec 1000 (length (obj_bump (lookups_topZips m) zip))) as [L|L].
  - destruct (_pruneTopZips_spec _ ND') as (Hl & Hn & _).
    split; [exact Hn | rewrite Hl; lia].
  - now split.
Qed.

Lemma run_calls_bounded calls m :
  topZips_bounded m -> topZips_bounded (run_calls calls m).
Proof.
  unfold run_calls. revert m.
  induction calls as [|[zip result|c] calls IH]; intros m H; cbn [fold_left];
    [exact H | |]; apply IH.
  - now apply recordLookup_bounded.
  - exact H.
Qed.

Lemma new_Metrics_bounded now : topZips_bounded (new_Metrics now).
Proof. split; cbn; [constructor | lia]. Qed.

(** C8.  After every [recordLookup] call, in any run from a fresh instance,
    the per-code popularity mapping holds at most 1000 distinct entries:
    whenever an increment makes the number of distinct codes exceed 1000,
    the mapping is pruned to exactly 500 entries, the top ones by count descending (no discarded entry has a
    greater count than a kept one), and the rest are discarded; in every
    other case the mapping is the incremented one, or is untouched when the
    lookup did not succeed. *)
Theorem topZips_retention :
  forall (now : Z) (calls : list metrics_call)
         (zip : string) (result : option lookup_arg),
    let m := run_calls calls (new_Metrics now) in
    let m' := recordLookup zip result m in
    let bumped := obj_bump (lookups_topZips m) zip in
    NoDup (map fst (lookups_topZips m'))
    /\ (length (lookups_topZips m') <= 1000)%nat
    /\ (is_found result = true -> (1000 < length bumped)%nat ->
        length (lookups_topZips m') = 500%nat
        /\ exists discarded,
             Permutation bumped (lookups_topZips m' ++ discarded)
             /\ forall kept d,
                  In kept (lookups_topZips m') -> In d discarded -> d.2 <= kept.2)
    /\ (is_found result = true -> (length bumped <= 1000)%nat ->
        lookups_topZips m' = bumped)
    /\ (is_found result = false -> lookups_topZips m' = lookups_topZips m).
Proof.
  intros now calls zip result m m' bumped.
  assert (topZips_bounded m) as B
    by apply run_calls_bounded, new_Metrics_bounded.
  destruct (recordLookup_bounded zip result m B) as [ND Len].
  split; [exact ND|]. split; [exact Len|].
  subst m'. rewrite recordLookup_topZips. fold bumped.
  split; [|split].
  - intros -> L. apply Nat.ltb_lt in L as L'. cbv zeta. rewrite L'.
    destruct B as [NDm Lm].
    destruct (_pruneTopZips_spec bumped (obj_bump_NoDup _ zip NDm))
      as (Hl & _ & HP & Hd).
    split; [rewrite Hl; lia|].
    exists (skipn 500 (js_sort by_count_desc bumped)). split; [exact HP | exact Hd].
  - intros -> L. cbv zeta.
    destruct (Nat.ltb_spec 1000 (length bumped)); [lia | reflexivity].
  - now intros ->.
Qed.

(** Pruning at work: a thousand codes looked up once, one of them a second
    time, then a new code.  The mapping goes from 1000 entries to 500; the
    code looked up twice leads, and the new code itself is among the
    discarded. *)
Example topZips_pruned :
  let m := run_calls (distinct_lookups 1000 ++ [Lookup (sample_zip 999) sample_found])
             (new_Metrics 0) in
  let m' := recordLookup (sample_zip 1000) sample_found m in
  length (lookups_topZips m) = 1000%nat
  /\ length (lookups_topZips m') = 500%nat
  /\ hd_error (lookups_topZips m') = Some ("00999", 2)
  /\ obj_get (lookups_topZips m') "00498" = Some 1
  /\ obj_get (lookups_topZips m') "00499" = None
  /\ obj_get (lookups_topZips m') "01000" = None.
Proof. vm_compute. repeat split; reflexivity. Qed.

(** How [recordLookup] classifies the outcomes of the server's [lookupZip]:
    found exactly when there is no error descriptor. *)
Lemma is_found_lookupZip zipData z :
  is_found (Some (arg_of_outcome (lookupZip zipData z))) =
    match lookupZip zipData z with Found _ => true | ErrorDesc _ _ => false end.
Proof.
  unfold lookupZip. destruct (normalizeZip z) as [n|]; [|reflexivity].
  now destruct (zipData !! n).
Qed.

Lemma recordLookup_counts zip result m :
  lookups_total (recordLookup zip result m) = lookups_total m + 1
  /\ (if is_found result
      then lookups_found (recordLookup zip result m) = lookups_found m + 1
           /\ lookups_notFound (recordLookup zip result m) = lookups_notFound m
      else lookups_found (recordLookup zip result m) = lookups_found m
           /\ lookups_notFound (recordLookup zip result m) = lookups_notFound m + 1).
Proof. unfold recordLookup. destruct (is_found result); cbn; auto. Qed.

Lemma run_calls_total calls m :
  lookups_total m = lookups_found m + lookups_notFound m ->
  lookups_total (run_calls calls m)
  = lookups_found (run_calls calls m) + lookups_notFound (run_calls calls m).
Proof.
  unfold run_calls. revert m.
  induction calls as [|[zip result|c] calls IH]; intros m H; cbn [fold_left];
    [exact H | |]; apply IH.
  - cbn [apply_call]. destruct (recordLookup_counts zip result m) as [T C].
    rewrite T. destruct (is_found result); destruct C as [-> ->]; lia.
  - exact H.
Qed.

(** C10 (as amended).  Starting from a freshly constructed [Metrics]
    instance, after every sequence of [recordLookup] calls (with
    [recordRequest] calls in between or not) the total lookup count equals
    the found count plus the not-found count: each call increments the total
    by exactly one and exactly one of found (when the result is present and
    its error field is absent or empty) or not-found (otherwise: a missing
    result, or a result with an error message). *)
Theorem lookup_counts_add_up :
  forall (now : Z) (calls : list metrics_call)
         (zip : string) (result : option lookup_arg),
    let m := run_calls calls (new_Metrics now) in
    let m' := recordLookup zip result m in
    let found :=
      exists r, result = Some r /\ (arg_error r = None \/ arg_error r = Some "") in
    lookups_total m = lookups_found m + lookups_notFound m
    /\ lookups_total m' = lookups_total m + 1
    /\ (found ->
        lookups_found m' = lookups_found m + 1
        /\ lookups_notFound m' = lookups_notFound m)
    /\ (~ found ->
        lookups_found m' = lookups_found m
        /\ lookups_notFound m' = lookups_notFound m + 1).
Proof.
  intros now calls zip result m m' found.
  split; [apply run_calls_total; reflexivity|].
  destruct (recordLookup_counts zip result m) as [T C].
  split; [exact T|].
  assert (is_found result = true <-> found) as F.
  { subst found. unfold is_found. destruct result as [r|].
    - destruct (arg_error r) as [e|] eqn:E.
      + rewrite String.eqb_eq. split.
        * intros ->. exists r. auto.
        * intros (r' & [= <-] & [A|A]); congruence.
      + split; [|reflexivity]. intros _. exists r. auto.
    - split; [discriminate|]. intros (r & A & _). discriminate A. }
  destruct (is_found result).
  - split; [intros _; exact C|]. intros N. contradiction N. now apply F.
  - split; [|intros _; exact C]. intros A. apply F in A. discriminate A.
Qed.

(** C10, the claim as stated, fails on a result that carries an error field
    holding the empty string: it is counted as found, not as not-found. *)
Lemma empty_error_counts_as_found :
  let result := Some {| arg_error := Some ""; arg_locations := None |} in
  let m := recordLookup "90210" result (new_Metrics 0) in
  lookups_total m = 1 /\ lookups_found m = 1 /\ lookups_notFound m = 0.
Proof. repeat split; reflexivity. Qed.

(** ** Hourly buckets *)

Lemma by_code_units_total a b :
  by_code_units a b = true \/ by_code_units b a = true.
Proof. apply String.leb_total. Qed.

Lemma by_code_units_refl a : by_code_units a a = true.
Proof. now destruct (by_code_units_total a a). Qed.

Lemma by_code_units_antisym a b :
  by_code_units a b = true -> by_code_units b a = true -> a = b.
Proof. apply String.leb_antisym. Qed.

Lemma by_code_units_trans a b c :
  by_code_units a b = true -> by_code_units b c = true -> by_code_units a c = true.
Proof.
  unfold by_code_units, String.leb. revert b c.
  induction a as [|x a IH]; intros [|y b] [|z c]; cbn; try congruence.
  unfold Ascii.compare.
  destruct (N.compare_spec (N_of_ascii x) (N_of_ascii y)) as [E1|L1|G1];
    [|intros _|congruence];
    (destruct (N.compare_spec (N_of_ascii y) (N_of_ascii z)) as [E2|L2|G2];
     [|intros _|congruence]).
  - rewrite E1, E2, N.compare_refl. apply IH.
  - intros _. rewrite E1. now apply N.compare_lt_iff in L2 as ->.
  - intros _. rewrite <- E2. now apply N.compare_lt_iff in L1 as ->.
  - assert (N_of_ascii x < N_of_ascii z)%N as L by lia.
    now apply N.compare_lt_iff in L as ->.
Qed.

Lemma nondecreasing_cons a hours :
  nondecreasing (a :: hours) = true ->
  by_code_units a (hd a hours) = true /\ nondecreasing hours = true.
Proof.
  destruct hours as [|b rest]; cbn [nondecreasing hd].
  - intros _. split; [apply by_code_units_refl | reflexivity].
  - intros H. now apply andb_true_iff in H.
Qed.

Lemma not_after_later h a b :
  not_after h a -> by_code_units a b = true -> not_after h b.
Proof. intros H L k Hk. apply (by_code_units_trans k a b); auto. Qed.

Lemma sorted_keys_enumerate (h : gmap string bucket) :
  enumerates (js_sort by_code_units (map fst (map_to_list h))) h.
Proof.
  pose proof (js_sort_Permutation by_code_units (map fst (map_to_list h))) as P.
  split.
  - rewrite <- P. apply NoDup_fst_map_to_list.
  - intros k. rewrite <- P. rewrite list_elem_of_fmap. split.
    + intros [[k' b] [-> H]]. apply elem_of_map_to_list in H. cbn. eauto.
    + intros [b H]. exists (k, b). split; [reflexivity|].
      now apply elem_of_map_to_list.
Qed.

Lemma enumerates_size keys (h : gmap string bucket) :
  enumerates keys h -> size h = length keys.
Proof.
  intros [ND E]. destruct (sorted_keys_enumerate h) as [ND' E'].
  rewrite <- length_map_to_list, <- (length_map fst).
  rewrite (js_sort_Permutation by_code_units (map fst (map_to_list h))).
  apply Permutation_length. apply NoDup_Permutation; [exact ND' | exact ND |].
  intros k. now rewrite E, E'.
Qed.

Lemma enumerates_delete k keys (h : gmap string bucket) :
  enumerates (k :: keys) h -> enumerates keys (delete k h).
Proof.
  intros [ND E]. apply NoDup_cons in ND as [Nk ND]. split; [exact ND|].
  intros k'. destruct (decide (k' = k)) as [->|NE].
  - rewrite lookup_delete_eq. split; [contradiction | intros []; discriminate].
  - rewrite (lookup_delete_ne h k k') by congruence. rewrite <- E.
    rewrite elem_of_cons. tauto.
Qed.

(** Cleaning never leaves more than 168 buckets. *)
Lemma clean_loop_size keys (h : gmap string bucket) :
  enumerates keys h -> size (clean_loop keys h) = Nat.min (length keys) 168.
Proof.
  revert h. induction keys as [|k keys IH]; intros h E.
  - cbn [clean_loop]. now rewrite (enumerates_size [] h E).
  - cbn [clean_loop].
    destruct (Nat.ltb_spec 168 (length (k :: keys))) as [L|L].
    + rewrite (IH _ (enumerates_delete k keys h E)). cbn [length] in *. lia.
    + rewrite (enumerates_size _ h E). lia.
Qed.

Lemma clean_loop_keeps keys (h : gmap string bucket) :
  (length keys <= 168)%nat -> clean_loop keys h = h.
Proof.
  intros L. destruct keys as [|k keys]; [reflexivity|]. cbn [clean_loop].
  now destruct (Nat.ltb_spec 168 (length (k :: keys))); [lia|].
Qed.

Lemma clean_loop_one k keys (h : gmap string bucket) :
  length keys = 168%nat -> clean_loop (k :: keys) h = delete k h.
Proof.
  intros L. cbn [clean_loop].
  destruct (Nat.ltb_spec 168 (length (k :: keys))) as [_|G]; [|cbn [length] in G; lia].
  apply clean_loop_keeps. lia.
Qed.

Lemma _cleanOldHours_size (h : gmap string bucket) :
  size (_cleanOldHours h) = Nat.min (size h) 168.
Proof.
  unfold _cleanOldHours. pose proof (sorted_keys_enumerate h) as E.
  rewrite (clean_loop_size _ h E). now rewrite (enumerates_size _ h E).
Qed.

Lemma _cleanOldHours_small (h : gmap string bucket) :
  (size h <= 168)%nat -> _cleanOldHours h = h.
Proof.
  intros L. unfold _cleanOldHours. apply clean_loop_keeps.
  now rewrite <- (enumerates_size _ h (sorted_keys_enumerate h)).
Qed.

(** With 169 buckets, cleaning deletes the oldest one and nothing else. *)
Lemma _cleanOldHours_oldest (h : gmap string bucket) :
  size h = 169%nat ->
  exists oldest,
    is_Some (h !! oldest)
    /\ (forall k, is_Some (h !! k) -> by_code_units oldest k = true)
    /\ _cleanOldHours h = delete oldest h.
Proof.
  intros L. unfold _cleanOldHours.
  pose proof (sorted_keys_enumerate h) as E.
  pose proof (enumerates_size _ h E) as S. rewrite L in S.
  pose proof (js_sort_StronglySorted by_code_units by_code_units_total
                by_code_units_trans (map fst (map_to_list h))) as SS.
  destruct (js_sort by_code_units (map fst (map_to_list h))) as [|k0 rest];
    [discriminate S|].
  exists k0. destruct E as [_ E]. split; [|split].
  - apply E. left.
  - intros k Hk. apply E in Hk. apply elem_of_cons in Hk as [->|Hk].
    + apply by_code_units_refl.
    + apply StronglySorted_inv in SS as [_ F]. rewrite Forall_forall in F. now apply F.
  - apply clean_loop_one. cbn [length] in S. lia.
Qed.

Lemma bucket_incr_zero (h : gmap string bucket) hour :
  h !! hour = Some (Count 0) -> bucket_incr h hour = <[hour := Count 1]> h.
Proof. intros H. unfold bucket_incr. now rewrite H. Qed.

(** The first request of an hour the mapping does not hold yet, with 168
    buckets present of which one at least is older: the oldest goes, the new
    one comes with count 1, and everything else stays. *)
Lemma record_hour_evicts (h : gmap string bucket) hour :
  size h = 168%nat ->
  h !! hour = None ->
  (exists k, is_Some (h !! k) /\ by_code_units k hour = true) ->
  exists oldest,
    is_Some (h !! oldest)
    /\ (forall k, is_Some (h !! k) -> by_code_units oldest k = true)
    /\ record_hour h hour = <[hour := Count 1]> (delete oldest h).
Proof.
  intros S N [k [Hk Lk]]. unfold record_hour. rewrite N. cbn [bucket_falsy].
  assert (size (<[hour := Count 0]> h) = 169%nat) as S'
    by (rewrite (map_size_insert_None _ _ _ N); lia).
  destruct (_cleanOldHours_oldest _ S') as (oldest & Ho & Hmin & ->).
  assert (oldest <> hour) as NE.
  { intros ->. assert (k = hour) as ->; [|rewrite N in Hk; now destruct Hk].
    apply by_code_units_antisym; [exact Lk|]. apply Hmin.
    rewrite lookup_insert_ne; [exact Hk|]. intros <-. rewrite N in Hk. now destruct Hk. }
  exists oldest. split; [|split].
  - now rewrite lookup_insert_ne in Ho by congruence.
  - intros k' Hk'. apply Hmin. destruct (decide (hour = k')) as [<-|D].
    + rewrite lookup_insert_eq. eauto.
    + now rewrite lookup_insert_ne.
  - rewrite (delete_insert_ne h oldest hour) by exact NE.
    rewrite bucket_incr_zero by apply lookup_insert_eq.
    apply insert_insert_eq.
Qed.

Lemma bucket_incr_keys (h : gmap string bucket) hour k :
  is_Some (bucket_incr h hour !! k) <-> k = hour \/ is_Some (h !! k).
Proof.
  unfold bucket_incr.
  destruct (h !! hour) as [[n|]|] eqn:H; rewrite lookup_insert_is_Some;
    (split; [intros [->|[_ I]]; auto | intros [->|I]; auto]);
    destruct (decide (hour = k)); auto.
Qed.

(** One call keeps the cap, as long as no bucket lies after the current
    hour. *)
Lemma record_hour_bounded (h : gmap string bucket) hour :
  (size h <= 168)%nat -> not_after h hour ->
  (size (record_hour h hour) <= 168)%nat /\ not_after (record_hour h hour) hour.
Proof.
  intros S NA.
  assert (forall h', (forall k, is_Some (h' !! k) -> k = hour \/ is_Some (h !! k)) ->
                     not_after h' hour) as Sub.
  { intros h' I k Hk. destruct (I k Hk) as [->|Hk'];
      [apply by_code_units_refl | now apply NA]. }
  unfold record_hour. destruct (bucket_falsy (h !! hour)) eqn:F.
  - set (h1 := <[hour := Count 0]> h).
    assert (forall k, is_Some (h1 !! k) -> k = hour \/ is_Some (h !! k)) as K1.
    { intros k. unfold h1. rewrite lookup_insert_is_Some. intros [->|[_ I]]; auto. }
    assert (size h1 <= 169)%nat as S1.
    { unfold h1. destruct (h !! hour) eqn:E.
      - rewrite map_size_insert_Some by (rewrite E; eauto). lia.
      - rewrite (map_size_insert_None _ _ _ E). lia. }
    assert (h1 !! hour = Some (Count 0)) as H1 by apply lookup_insert_eq.
    destruct (Nat.le_gt_cases (size h1) 168) as [Le|Gt].
    + rewrite (_cleanOldHours_small h1 Le), (bucket_incr_zero h1 hour H1). split.
      * rewrite map_size_insert_Some by (rewrite H1; eauto). exact Le.
      * apply Sub. intros k. rewrite lookup_insert_is_Some. intros [->|[_ I]]; auto.
    + assert (h !! hour = None) as N.
      { destruct (h !! hour) eqn:E; [|reflexivity].
        unfold h1 in Gt. rewrite map_size_insert_Some in Gt by (rewrite E; eauto). lia. }
      assert (size h = 168%nat) as S168.
      { unfold h1 in Gt. rewrite (map_size_insert_None _ _ _ N) in Gt. lia. }
      destruct (map_choose h) as (k & b & Hk).
      { intros ->. rewrite map_size_empty in S168. discriminate. }
      destruct (record_hour_evicts h hour S168 N) as (oldest & Ho & _ & R).
      { exists k. split; [eauto | apply NA; eauto]. }
      unfold record_hour in R. rewrite N in R. cbn [bucket_falsy] in R.
      fold h1 in R. rewrite R. split.
      * assert (delete oldest h !! hour = None) as D.
        { destruct (delete oldest h !! hour) eqn:E; [|reflexivity].
          apply lookup_delete_Some in E as [_ E]. congruence. }
        rewrite (map_size_insert_None _ _ _ D).
        pose proof (map_size_delete_Some oldest h Ho). lia.
      * apply Sub. intros k'. rewrite lookup_insert_is_Some.
        intros [->|[_ [b' I]]]; auto. apply lookup_delete_Some in I as [_ I]. eauto.
  - split.
    + destruct (h !! hour) as [[n|]|] eqn:E; try discriminate F.
      unfold bucket_incr. rewrite E.
      now rewrite map_size_insert_Some by (rewrite E; eauto).
    + apply Sub. intros k. rewrite bucket_incr_keys. tauto.
Qed.

Lemma recordRequest_hourly hour req status ms m :
  hourlyRequests (recordRequest hour req status ms m)
  = record_hour (hourlyRequests m) hour.
Proof. reflexivity. Qed.

Lemma request_hours_app calls calls' :
  request_hours (calls ++ calls') = request_hours calls ++ request_hours calls'.
Proof.
  induction calls as [|[zip result|c] calls IH]; cbn; [reflexivity | exact IH |].
  now rewrite IH.
Qed.

(** Along a run whose clock never goes backwards the cap holds, and no
    bucket lies after the hour of whatever request comes next. *)
Lemma run_calls_hourly_bounded calls :
  forall (m : Metrics) (next : string),
    (size (hourlyRequests m) <= 168)%nat ->
    nondecreasing (request_hours calls ++ [next]) = true ->
    not_after (hourlyRequests m) (hd next (request_hours calls)) ->
    (size (hourlyRequests (run_calls calls m)) <= 168)%nat
    /\ not_after (hourlyRequests (run_calls calls m)) next.
Proof.
  unfold run_calls.
  induction calls as [|[zip result|c] calls IH]; intros m next S ND NA;
    [now split | |]; cbn [fold_left apply_call].
  - assert (hourlyRequests (recordLookup zip result m) = hourlyRequests m) as E
      by (unfold recordLookup; now destruct (is_found result)).
    apply IH; rewrite ?E; assumption.
  - cbn [request_hours app hd] in ND, NA.
    apply nondecreasing_cons in ND as [L ND].
    destruct (record_hour_bounded (hourlyRequests m) (call_hour c) S NA) as [S' NA'].
    apply IH; rewrite ?recordRequest_hourly; [exact S' | exact ND |].
    apply (not_after_later _ (call_hour c)); [exact NA'|].
    destruct (request_hours calls); exact L.
Qed.

(** With a clock that never runs backwards, in any run from a fresh
    instance on keys of its own, the hourly request bucket mapping never
    holds more than 168 entries after a [recordRequest] call, and the hour
    of the call has its bucket. *)
Theorem hourly_bound :
  forall (now : Z) (calls : list metrics_call) (call : request_call),
    nondecreasing (request_hours (calls ++ [Request call])) = true ->
    forallb own_keys (calls ++ [Request call]) = true ->
    let m := run_calls calls (new_Metrics now) in
    let m' := recordRequest (call_hour call) (call_req call) (call_status call)
                (call_ms call) m in
    (size (hourlyRequests m') <= 168)%nat
    /\ is_Some (hourlyRequests m' !! call_hour call).
Proof.
  intros now calls call ND _ m m'.
  rewrite request_hours_app in ND. cbn [request_hours] in ND.
  destruct (run_calls_hourly_bounded calls (new_Metrics now) (call_hour call))
    as [S NA]; [cbn; rewrite map_size_empty; lia | exact ND | |].
  { intros k [b Hk]. cbn in Hk. rewrite lookup_empty in Hk. discriminate. }
  fold m in S, NA. subst m'. rewrite recordRequest_hourly. split.
  - now apply record_hour_bounded.
  - unfold record_hour. apply bucket_incr_keys. now left.
Qed.

Lemma hourly_bound_sample :
  let m := run_calls (sample_calls 3) (new_Metrics 0) in
  let m' := recordRequest (call_hour (sample_call 3)) (call_req (sample_call 3))
              (call_status (sample_call 3)) (call_ms (sample_call 3)) m in
  (size (hourlyRequests m') <= 168)%nat
  /\ is_Some (hourlyRequests m' !! call_hour (sample_call 3)).
Proof.
  apply (hourly_bound 0 (sample_calls 3) (sample_call 3)); vm_compute; reflexivity.
Defined.

(** With a clock that never runs backwards, in any run from a fresh
    instance on keys of its own: when [recordRequest] records the first
    request of a new hour while 168 distinct hour keys exist, exactly the
    oldest existing key (smallest in ascending key order) is evicted, never
    more, never less.  The mapping becomes the old one without that key and
    with the new hour at count 1, and holds 168 entries again. *)
Theorem oldest_hour_evicted :
  forall (now : Z) (calls : list metrics_call) (call : request_call),
    nondecreasing (request_hours (calls ++ [Request call])) = true ->
    forallb own_keys (calls ++ [Request call]) = true ->
    let m := run_calls calls (new_Metrics now) in
    let m' := recordRequest (call_hour call) (call_req call) (call_status call)
                (call_ms call) m in
    size (hourlyRequests m) = 168%nat ->
    hourlyRequests m !! call_hour call = None ->
    exists oldest,
      is_Some (hourlyRequests m !! oldest)
      /\ (forall k, is_Some (hourlyRequests m !! k) -> by_code_units oldest k = true)
      /\ hourlyRequests m' =
           <[call_hour call := Count 1]> (delete oldest (hourlyRequests m))
      /\ size (hourlyRequests m') = 168%nat.
Proof.
  intros now calls call ND _ m m' S168 N.
  rewrite request_hours_app in ND. cbn [request_hours] in ND.
  destruct (run_calls_hourly_bounded calls (new_Metrics now) (call_hour call))
    as [_ NA]; [cbn; rewrite map_size_empty; lia | exact ND | |].
  { intros k [b Hk]. cbn in Hk. rewrite lookup_empty in Hk. discriminate. }
  fold m in NA. subst m'. rewrite recordRequest_hourly.
  destruct (record_hour_evicts (hourlyRequests m) (call_hour call) S168 N)
    as (oldest & O & Least & E).
  { destruct (map_choose (hourlyRequests m)) as (k & b & Hk).
    { intros E. rewrite E, map_size_empty in S168. discriminate. }
    exists k. split; [eauto | apply NA; eauto]. }
  exists oldest. split; [exact O|]. split; [exact Least|]. split; [exact E|].
  rewrite E, map_size_insert_None.
  - rewrite (map_size_delete_Some _ _ O), S168. reflexivity.
  - rewrite lookup_delete_ne; [exact N|]. intros ->.
    destruct O as [b Hb]. congruence.
Qed.

Lemma oldest_hour_evicted_week :
  let m := run_calls (sample_calls 168) (new_Metrics 0) in
  let m' := recordRequest (call_hour (sample_call 168)) (call_req (sample_call 168))
              (call_status (sample_call 168)) (call_ms (sample_call 168)) m in
  exists oldest,
    is_Some (hourlyRequests m !! oldest)
    /\ (forall k, is_Some (hourlyRequests m !! k) -> by_code_units oldest k = true)
    /\ hourlyRequests m' =
         <[call_hour (sample_call 168) := Count 1]> (delete oldest (hourlyRequests m))
    /\ size (hourlyRequests m') = 168%nat.
Proof.
  apply (oldest_hour_evicted 0 (sample_calls 168) (sample_call 168));
    vm_compute; reflexivity.
Defined.

(** C7.  The claim fails when the clock has been set back.  After a week of
    traffic, one request in each of 168 hours, a request in the hour before
    the first finds 168 buckets and none of its own: the cleaning deletes
    the bucket just created, no existing key is evicted (each still holds
    its count of 1), and the increment leaves [NaN] under the new hour, so
    that the mapping holds 169 entries. *)
Theorem clock_set_back_breaks_retention :
  let m := run_calls (sample_calls 168) (new_Metrics 0) in
  let m' := recordRequest "2025-05-31T23" (call_req (sample_call 0)) 200 5 m in
  size (hourlyRequests m) = 168%nat
  /\ hourlyRequests m !! "2025-05-31T23" = None
  /\ size (hourlyRequests m') = 169%nat
  /\ hourlyRequests m' !! "2025-05-31T23" = Some CountNaN
  /\ forallb (fun k => match hourlyRequests m' !! k with
                        | Some (Count 1) => true
                        | _ => false
                        end)
       (List.map fst (map_to_list (hourlyRequests m))) = true.
Proof. vm_compute. repeat split; reflexivity. Qed.

(** ** Endpoints *)

(** Lookups by code are grouped under one endpoint. *)
Example endpoint_normalization :
  _normalizeEndpoint "/api/lookup/90210" = "/api/lookup/:zip"
  /\ _normalizeEndpoint "/api/lookup/10001" = "/api/lookup/:zip"
  /\ _normalizeEndpoint "/api/lookup" = "/api/lookup"
  /\ _normalizeEndpoint "/health" = "/health".
Proof. repeat split; reflexivity. Qed.

(** * Further properties *)

(** ** Normalization, continued *)

Lemma append_nil t : String.append EmptyString t = t.
Proof. reflexivity. Qed.

Lemma append_cons c s t : String.append (String c s) t = String c (String.append s t).
Proof. reflexivity. Qed.

Lemma length_append s t :
  String.length (String.append s t) = (String.length s + String.length t)%nat.
Proof.
  induction s as [|c s IH]; [reflexivity|].
  rewrite append_cons. cbn. now f_equal.
Qed.

Lemma length_repeat_char c n : String.length (repeat_char c n) = n.
Proof. induction n as [|n IH]; cbn; [reflexivity | now f_equal]. Qed.

Lemma padStart_length n c s : (n <= String.length (padStart n c s))%nat.
Proof.
  unfold padStart. destruct (Nat.leb_spec n (String.length s)); [assumption|].
  rewrite length_append, length_repeat_char. lia.
Qed.

Lemma slice0_length_exact n s :
  (n <= String.length s)%nat -> String.length (slice0 n s) = n.
Proof.
  unfold slice0. revert s.
  induction n as [|n IH]; intros [|c s] H; cbn in *; try reflexivity; try lia.
  rewrite IH; [reflexivity | lia].
Qed.

(** Whatever the input, the normalized text has exactly five characters:
    short inputs are padded, long ones cut, and only the test for digits
    can reject. *)
Theorem normalized_length :
  forall v : value,
    String.length (normalized v) = 5%nat
    /\ (lookup_normalizedZip v = None <-> all_digits (normalized v) = false).
Proof.
  intros v.
  assert (String.length (normalized v) = 5%nat) as L
    by (unfold normalized; apply slice0_length_exact, padStart_length).
  split; [exact L|].
  unfold lookup_normalizedZip, test_5_digits. rewrite L. cbn [Nat.eqb andb].
  destruct (all_digits (normalized v)); cbn; split; congruence.
Qed.

Lemma trimEnd_keeps_head c r :
  is_white_space c = false -> exists r', trimEnd (String c r) = String c r'.
Proof.
  intros H. cbn. destruct (trimEnd r); [rewrite H|]; eauto.
Qed.

Lemma trimEnd_idempotent s : trimEnd (trimEnd s) = trimEnd s.
Proof.
  induction s as [|c r IH]; [reflexivity|]. cbn.
  destruct (trimEnd r) as [|c' r'] eqn:E.
  - destruct (is_white_space c) eqn:W; [reflexivity|]. cbn. now rewrite W.
  - cbn [trimEnd]. cbn [trimEnd] in IH. now rewrite IH.
Qed.

Lemma trimStart_head s :
  trimStart s = EmptyString
  \/ exists c r, trimStart s = String c r /\ is_white_space c = false.
Proof.
  induction s as [|c r IH]; cbn; [now left|].
  destruct (is_white_space c) eqn:W; [exact IH|]. right. eauto.
Qed.

Lemma trim_idempotent s : trim (trim s) = trim s.
Proof.
  unfold trim. destruct (trimStart_head s) as [->|(c & r & -> & W)]; [reflexivity|].
  destruct (trimEnd_keeps_head c r W) as [r' E]. rewrite E.
  cbn [trimStart]. rewrite W. rewrite <- E. apply trimEnd_idempotent.
Qed.

(** Blanks around a code do not matter to the client: a string and its
    trimmed form get the same answer, on any table. *)
Theorem lookup_ignores_blanks :
  forall (this : ZipFill) (s : string),
    lookup this (VStr s) = lookup this (VStr (trim s)).
Proof.
  intros this s. unfold lookup, lookup_normalizedZip, normalized.
  cbn [ToString]. now rewrite trim_idempotent.
Qed.

Lemma all_digits_append s t :
  all_digits (String.append s t) = all_digits s && all_digits t.
Proof.
  induction s as [|c s IH]; [reflexivity|].
  rewrite append_cons. cbn. rewrite IH. apply andb_assoc.
Qed.

Lemma all_digits_repeat_zero n : all_digits (repeat_char "0" n) = true.
Proof. induction n as [|n IH]; cbn; [reflexivity | exact IH]. Qed.

Lemma trimEnd_digits_prefix s t :
  all_digits s = true -> s <> EmptyString ->
  exists t', trimEnd (String.append s t) = String.append s t'.
Proof.
  induction s as [|c r IH]; intros D NE; [contradiction|].
  cbn in D. apply andb_true_iff in D as [Dc Dr].
  pose proof (digit_not_white_space c Dc) as W.
  destruct r as [|c' r'].
  - rewrite append_cons, append_nil.
    destruct (trimEnd_keeps_head c t W) as [t' E]. exists t'. now rewrite E.
  - destruct (IH Dr ltac:(discriminate)) as [t' E].
    exists t'. rewrite (append_cons c), (append_cons c). cbn [trimEnd]. rewrite E.
    now rewrite append_cons.
Qed.

Lemma slice0_append s t : slice0 (String.length s) (String.append s t) = s.
Proof.
  unfold slice0. induction s as [|c s IH].
  - rewrite append_nil. now destruct t.
  - rewrite append_cons. cbn. now rewrite IH.
Qed.

(** Truncation is silent: whatever follows five digits is ignored, by the
    client and by the server alike. *)
Theorem normalization_truncates :
  forall (s t : string),
    test_5_digits s = true ->
    lookup_normalizedZip (VStr (String.append s t)) = Some s
    /\ normalizeZip (VStr (String.append s t)) = Some s.
Proof.
  intros s t H. destruct (test_5_digits_inv s H) as [L D].
  assert (s <> EmptyString) as NE by (intros ->; discriminate L).
  assert (normalized (VStr (String.append s t)) = s) as N.
  { unfold normalized, trim. cbn [ToString].
    destruct s as [|c r]; [contradiction|].
    assert (trimStart (String.append (String c r) t) = String.append (String c r) t) as ->.
    { cbn in D. apply andb_true_iff in D as [Dc _].
      rewrite append_cons. cbn. now rewrite (digit_not_white_space c Dc). }
    destruct (trimEnd_digits_prefix (String c r) t D NE) as [t' ->].
    unfold padStart. rewrite length_append, L.
    destruct (Nat.leb_spec 5 (5 + String.length t')); [|lia].
    rewrite <- L. apply slice0_append. }
  split.
  - unfold lookup_normalizedZip. now rewrite N, H.
  - unfold normalizeZip. rewrite N, H.
    destruct s; [contradiction | reflexivity].
Qed.

Lemma normalization_truncates_sample :
  lookup_normalizedZip (VStr (String.append "12345" "67")) = Some "12345"
  /\ normalizeZip (VStr (String.append "12345" "67")) = Some "12345".
Proof. apply (normalization_truncates "12345" "67"). reflexivity. Defined.

(** ** Lookup, continued *)

(** Every result the client returns is an entry of the loaded table, found
    under the normalized input, which is five digits; an entry stored under
    any other key is never returned. *)
Theorem lookup_sound :
  forall (this : ZipFill) (v : value) (r : LookupResult),
    lookup this v = Some r ->
    exists (t : table) (e : entry),
      loaded this = true
      /\ data this = Some t
      /\ zip r = normalized v
      /\ test_5_digits (zip r) = true
      /\ t !! zip r = Some e
      /\ locations r = entry_locations e
      /\ hasMultiple r = entry_hasMultiple e.
Proof.
  intros this v r. unfold lookup, lookup_normalizedZip.
  destruct (loaded this); [|discriminate].
  destruct (data this) as [t|]; [|discriminate].
  destruct (test_5_digits (normalized v)) eqn:T; cbn [negb]; [|discriminate].
  destruct (t !! normalized v) as [e|] eqn:E; [|discriminate].
  intros [= <-]. exists t, e. cbn. auto 10.
Qed.

Lemma lookup_sound_sample :
  exists (t : table) (e : entry),
    loaded sample_ZipFill = true
    /\ data sample_ZipFill = Some t
    /\ "90210" = normalized (VStr " 90210 ")
    /\ test_5_digits "90210" = true
    /\ t !! "90210" = Some e
    /\ [beverly_hills] = entry_locations e
    /\ false = entry_hasMultiple e.
Proof.
  apply (lookup_sound sample_ZipFill (VStr " 90210 ")
           {| zip := "90210"; locations := [beverly_hills]; hasMultiple := false |}).
  vm_compute. reflexivity.
Defined.

Lemma lookup_lookupZip_values t p v :
  empty_or_zero v = false ->
  match lookup {| data := Some t; loaded := true; loadPromise := p |} v with
  | Some r => lookupZip t v = Found r
  | None => exists error z, lookupZip t v = ErrorDesc error z
  end.
Proof.
  intros H. unfold lookup, lookupZip. cbn [loaded data].
  assert (normalizeZip v = lookup_normalizedZip v) as ->.
  { destruct (truthy v) eqn:T; [now apply normalizeZip_truthy|].
    rewrite (normalizeZip_falsy v T).
    destruct v as [| |[]|z| |s| |]; try discriminate T; try reflexivity; cbn in H, T.
    - rewrite H in T. discriminate T.
    - rewrite H in T. discriminate T. }
  destruct (lookup_normalizedZip v) as [n|]; [|eauto].
  destruct (t !! n); [reflexivity | eauto].
Qed.

(** The client and the server answer alike on one table, for every input
    that prints exactly, the empty string and the number [0] apart: the
    client's result is the server's, where the client returns [null] the
    server returns an error descriptor, and where [String] cannot convert
    the input both throw. *)
Theorem lookup_agrees_with_lookupZip :
  forall (t : table) (p : option promise) (v : value),
    empty_or_zero v = false ->
    exact_numbers v = true ->
    match lookup_call {| data := Some t; loaded := true; loadPromise := p |} v with
    | Normal (Some r) => lookupZip_call t v = Normal (Found r)
    | Normal None => exists error z, lookupZip_call t v = Normal (ErrorDesc error z)
    | TypeError => lookupZip_call t v = TypeError
    end.
Proof.
  intros t p v H _. rewrite lookup_call_spec, lookupZip_call_spec. cbn [loaded data].
  destruct (String_throws v); [reflexivity|].
  pose proof (lookup_lookupZip_values t p v H) as A.
  destruct (lookup _ v) as [r|]; [now rewrite A|].
  destruct A as (error & z & ->). eauto.
Qed.

Lemma lookup_agrees_with_lookupZip_sample :
  lookupZip_call sample_table (VNum 90210)
  = Normal (Found {| zip := "90210"; locations := [beverly_hills];
                     hasMultiple := false |}).
Proof.
  exact (lookup_agrees_with_lookupZip sample_table None (VNum 90210) eq_refl eq_refl).
Defined.

(** The outcomes of the server's lookup on an input that prints exactly.
    It throws exactly when [String] cannot convert the input.  A result is
    found under the normalized input, a key of the table.  Of the two error
    descriptors, the one for an invalid code carries the input as it was
    sent; the one for a code that is not found carries it normalized, five
    digits that are no key of the table. *)
Theorem lookupZip_outcomes :
  forall (t : table) (v : value),
    exact_numbers v = true ->
    match lookupZip_call t v with
    | TypeError => String_throws v = true
    | Normal (Found r) =>
        String_throws v = false
        /\ normalizeZip_call v = Normal (Some (zip r))
        /\ exists e, t !! zip r = Some e
                     /\ locations r = entry_locations e
                     /\ hasMultiple r = entry_hasMultiple e
    | Normal (ErrorDesc error z) =>
        String_throws v = false
        /\ ((error = "Invalid zip code format" /\ z = v
             /\ normalizeZip_call v = Normal None)
            \/ (error = "Zip code not found"
                /\ exists n, z = VStr n /\ normalizeZip_call v = Normal (Some n)
                             /\ test_5_digits n = true /\ t !! n = None))
    end.
Proof.
  intros t v _. rewrite lookupZip_call_spec, normalizeZip_call_spec.
  destruct (String_throws v); [reflexivity|]. unfold lookupZip.
  destruct (normalizeZip v) as [n|] eqn:N; [|split; [reflexivity | now left]].
  destruct (t !! n) as [e|] eqn:E.
  - cbn. split; [reflexivity|]. split; [reflexivity | eauto].
  - split; [reflexivity|]. right. split; [reflexivity|].
    exists n. repeat split; [|exact E].
    pose proof (normalizeZip_shape v) as S. rewrite N in S. destruct S as [L D].
    unfold test_5_digits. now rewrite L, D.
Qed.

Lemma lookupZip_outcomes_unconvertible :
  String_throws (VArr [VNum 90210; VObj [("toString", VNull)]]) = true.
Proof.
  exact (lookupZip_outcomes sample_table
           (VArr [VNum 90210; VObj [("toString", VNull)]]) eq_refl).
Defined.

(** The single-lookup routes on an input that prints exactly.  The query
    route throws exactly when [String] cannot convert its parameter, and
    the status it sends otherwise tells what happened: 400 with the bare
    error when the parameter is missing or empty, nothing being looked up;
    200 with the result when [lookupZip] finds the code; 404 with the
    descriptor for each error [lookupZip] returns.  The path route never
    throws, answers 200 or 404, and on a non-empty segment answers what the
    query route answers on that string. *)
Theorem single_lookup_routes :
  forall (t : table) (v : value),
    exact_numbers v = true ->
    match api_lookup_query t v with
    | TypeError => String_throws v = true
    | Normal resp =>
        String_throws v = false
        /\ match lookup_body resp with
           | MissingBody error =>
               lookup_status resp = 400
               /\ error = "Missing zip parameter" /\ truthy v = false
           | OutcomeBody (Found r) =>
               lookup_status resp = 200
               /\ truthy v = true /\ lookupZip_call t v = Normal (Found r)
           | OutcomeBody (ErrorDesc error z) =>
               lookup_status resp = 404
               /\ truthy v = true /\ lookupZip_call t v = Normal (ErrorDesc error z)
           end
    end
    /\ forall s,
         exists resp,
           api_lookup_param t s = Normal resp
           /\ (lookup_status resp = 200 \/ lookup_status resp = 404)
           /\ (s <> "" -> api_lookup_query t (VStr s) = Normal resp).
Proof.
  intros t v _. split.
  - unfold api_lookup_query, respond_lookup.
    destruct (truthy v) eqn:T; cbn [negb].
    + rewrite lookupZip_call_spec.
      destruct (String_throws v); cbn [and_then]; [reflexivity|].
      unfold lookupZip.
      destruct (normalizeZip v) as [n|]; [destruct (t !! n)|]; cbn;
        repeat split; reflexivity.
    + cbn. rewrite (falsy_converts v T). repeat split; reflexivity.
  - intros s. unfold api_lookup_param, api_lookup_query, respond_lookup.
    rewrite lookupZip_call_spec. cbn [String_throws and_then].
    assert (truthy (VStr s) = negb (String.eqb s "")) as T by reflexivity.
    destruct (has_error (lookupZip t (VStr s))) eqn:E;
      (eexists; split; [reflexivity|]; split; [cbn; auto|]);
      intros NE; rewrite T; apply String.eqb_neq in NE; rewrite NE; reflexivity.
Qed.

Lemma single_lookup_routes_found :
  api_lookup_param sample_table "90210"
  = Normal {| lookup_status := 200;
              lookup_body :=
                OutcomeBody (Found {| zip := "90210"; locations := [beverly_hills];
                                      hasMultiple := false |}) |}
  /\ api_lookup_query sample_table (VStr "90210")
     = api_lookup_param sample_table "90210".
Proof.
  destruct (single_lookup_routes sample_table (VStr "90210") eq_refl) as [_ P].
  destruct (P "90210") as (resp & R & _ & Q).
  rewrite Q by discriminate. rewrite R. split; [|reflexivity].
  rewrite <- R. vm_compute. reflexivity.
Defined.

(** ** Loading, continued *)

Lemma loaded_is_final w ev :
  loaded (this w) = true ->
  loadPromise (this w) = Some Fulfilled ->
  step w ev = w.
Proof.
  intros Hl Hp. destruct ev as [url|r]; cbn.
  - unfold load. now rewrite Hl.
  - unfold fetch_settles. now rewrite Hp.
Qed.

(** Once a load has succeeded the instance is settled: it holds the table
    the network sent, answers lookups from it, and no later call or network
    event changes it or fetches again. *)
Theorem load_success_is_final :
  forall (bundled url : option string) (status : Z) (d : table) (evs : list event),
    let w0 := new_client None bundled in
    let w := run w0 (CallLoad url :: Settles (FetchResponse true status (Some d)) :: evs) in
    this w = {| data := Some d; loaded := true; loadPromise := Some Fulfilled |}
    /\ fetched w = [dataUrl w0 url]
    /\ (forall url', load w url' = (w, Fulfilled))
    /\ (forall v, lookup (this w) v
                  = lookup {| data := Some d; loaded := true; loadPromise := None |} v).
Proof.
  intros bundled url status d evs w0 w.
  assert (w = {| this := {| data := Some d; loaded := true;
                            loadPromise := Some Fulfilled |};
                 ZIPFILL_DATA_URL := bundled;
                 fetched := [dataUrl w0 url] |}) as ->.
  { subst w. unfold run. cbn [fold_left]. apply run_fixed.
    intros ev. now apply loaded_is_final. }
  repeat split.
Qed.

(** An instance constructed with its data never touches the network; it
    counts as loaded from its first [load] call on, not before. *)
Theorem preloaded_never_fetches :
  forall (d : table) (bundled : option string) (evs : list event),
    let w := run (new_client (Some d) bundled) evs in
    fetched w = []
    /\ data (this w) = Some d
    /\ loaded (this w) = existsb is_CallLoad evs.
Proof.
  intros d bundled evs w. subst w.
  set (w1 := {| this := {| data := Some d; loaded := true;
                           loadPromise := Some Fulfilled |};
                ZIPFILL_DATA_URL := bundled; fetched := [] |}).
  assert (run (new_client (Some d) bundled) evs
          = if existsb is_CallLoad evs then w1 else new_client (Some d) bundled) as ->.
  { induction evs as [|[url|r] evs IH]; [reflexivity | |].
    - cbn [existsb is_CallLoad orb]. unfold run. cbn [fold_left].
      apply (run_fixed w1). intros ev. now apply loaded_is_final.
    - cbn [existsb is_CallLoad orb]. exact IH. }
  now destruct (existsb is_CallLoad evs).
Qed.

Lemma run_fixed_on w evs : (forall ev, In ev evs -> step w ev = w) -> run w evs = w.
Proof.
  unfold run. induction evs as [|ev evs IH]; intros H; cbn; [reflexivity|].
  rewrite (H ev) by now left. apply IH. intros ev' I. apply H. now right.
Qed.

Lemma pending_absorbs_calls w urls :
  loaded (this w) = false ->
  loadPromise (this w) = Some Pending ->
  run w (List.map CallLoad urls) = w.
Proof.
  intros Hl Hp. apply run_fixed_on. intros ev Hev.
  apply in_map_iff in Hev as (url & <- & _). cbn. unfold load. now rewrite Hl, Hp.
Qed.

(** Calls made while a load is in flight share it: however many there are,
    one URL is fetched, each call gets the pending promise, and when the
    network answers that one promise settles for all of them, fulfilled with
    the table loaded or rejected with the error. *)
Theorem inflight_loads_share :
  forall (bundled url : option string) (urls : list (option string)) (r : fetch_result),
    let w0 := new_client None bundled in
    let w := run w0 (CallLoad url :: List.map CallLoad urls) in
    fetched w = [dataUrl w0 url]
    /\ (forall url', load w url' = (w, Pending))
    /\ fetched (fetch_settles w r) = [dataUrl w0 url]
    /\ match fetch_outcome r with
       | inr d =>
           this (fetch_settles w r)
           = {| data := Some d; loaded := true; loadPromise := Some Fulfilled |}
       | inl e =>
           this (fetch_settles w r)
           = {| data := None; loaded := false; loadPromise := Some (Rejected e) |}
       end.
Proof.
  intros bundled url urls r w0 w.
  assert (w = {| this := {| data := None; loaded := false;
                            loadPromise := Some Pending |};
                 ZIPFILL_DATA_URL := bundled;
                 fetched := [dataUrl w0 url] |}) as ->.
  { subst w. unfold run. cbn [fold_left]. now apply pending_absorbs_calls. }
  split; [reflexivity|]. split; [reflexivity|].
  unfold fetch_settles. cbn. destruct (fetch_outcome r); now split.
Qed.

(** ** Request statistics *)

Lemma lastn_length {A} n (l : list A) : length (lastn n l) = Nat.min n (length l).
Proof. unfold lastn. rewrite length_skipn. lia. Qed.

Lemma push_capped_lastn cap arr x :
  (1 <= cap)%nat -> (length arr <= cap)%nat ->
  push_capped cap arr x = lastn cap (arr ++ [x]).
Proof.
  intros C L. unfold push_capped, lastn. rewrite length_app. cbn [length].
  destruct (Nat.ltb_spec cap (length arr + 1)) as [G|G].
  - replace (length arr + 1 - cap)%nat with 1%nat by lia.
    now destruct (arr ++ [x]).
  - replace (length arr + 1 - cap)%nat with 0%nat by lia. reflexivity.
Qed.

Lemma skipn_snoc {A} a (l : list A) x :
  (a <= length l)%nat -> skipn a (l ++ [x]) = skipn a l ++ [x].
Proof.
  revert a. induction l as [|y l IH]; intros [|a] L; cbn in *; try reflexivity; try lia.
  apply IH. lia.
Qed.

Lemma skipn_add {A} a b (l : list A) : skipn b (skipn a l) = skipn (a + b) l.
Proof.
  revert a. induction l as [|y l IH]; intros [|a]; cbn; try reflexivity.
  - now destruct b.
  - apply IH.
Qed.

Lemma lastn_snoc {A} n (l : list A) x :
  (1 <= n)%nat -> lastn n (lastn n l ++ [x]) = lastn n (l ++ [x]).
Proof.
  intros N. unfold lastn at 1 3. rewrite !length_app, lastn_length. cbn [length].
  unfold lastn. rewrite <- skipn_snoc by lia. rewrite skipn_add.
  f_equal. lia.
Qed.

Lemma run_calls_snoc calls c m :
  run_calls (calls ++ [c]) m = apply_call (run_calls calls m) c.
Proof. unfold run_calls. now rewrite fold_left_app. Qed.

Lemma request_times_app calls calls' :
  request_times (calls ++ calls') = request_times calls ++ request_times calls'.
Proof.
  induction calls as [|[zip result|c] calls IH]; cbn; [reflexivity | exact IH |].
  now rewrite IH.
Qed.

Lemma endpoint_times_app endpoint calls calls' :
  endpoint_times endpoint (calls ++ calls')
  = endpoint_times endpoint calls ++ endpoint_times endpoint calls'.
Proof.
  induction calls as [|[zip result|c] calls IH]; cbn; [reflexivity | exact IH |].
  destruct (String.eqb _ endpoint); cbn; now rewrite IH.
Qed.

Lemma recordLookup_requests zip result m :
  responseTimes_total (recordLookup zip result m) = responseTimes_total m
  /\ responseTimes_byEndpoint (recordLookup zip result m) = responseTimes_byEndpoint m
  /\ maxResponseTimes (recordLookup zip result m) = maxResponseTimes m
  /\ requests_total (recordLookup zip result m) = requests_total m
  /\ requests_byEndpoint (recordLookup zip result m) = requests_byEndpoint m
  /\ requests_byStatus (recordLookup zip result m) = requests_byStatus m
  /\ requests_byMethod (recordLookup zip result m) = requests_byMethod m
  /\ hourlyRequests (recordLookup zip result m) = hourlyRequests m.
Proof. unfold recordLookup. now destruct (is_found result). Qed.

(** The response-time buffers are sliding windows: after any run from a
    fresh instance, on keys of its own, the global buffer holds the last
    1000 response times in the order they were recorded, and the buffer of
    each endpoint the last 100 of that endpoint. *)
Theorem response_time_windows :
  forall (now : Z) (calls : list metrics_call),
    forallb own_keys calls = true ->
    let m := run_calls calls (new_Metrics now) in
    responseTimes_total m = lastn 1000 (request_times calls)
    /\ (length (responseTimes_total m) <= 1000)%nat
    /\ forall endpoint,
         default [] (responseTimes_byEndpoint m !! endpoint)
         = lastn 100 (endpoint_times endpoint calls)
         /\ (length (default [] (responseTimes_byEndpoint m !! endpoint)) <= 100)%nat.
Proof.
  intros now calls _ m.
  assert (maxResponseTimes m = 1000%nat
          /\ responseTimes_total m = lastn 1000 (request_times calls)
          /\ forall endpoint,
               default [] (responseTimes_byEndpoint m !! endpoint)
               = lastn 100 (endpoint_times endpoint calls)) as (_ & T & E).
  { subst m. induction calls as [|c calls IH] using rev_ind.
    - split; [reflexivity|]. split; [reflexivity|]. intros endpoint. reflexivity.
    - rewrite run_calls_snoc, request_times_app.
      destruct IH as (M & T & E).
      set (m := run_calls calls (new_Metrics now)) in *.
      destruct c as [zip result|c]; cbn [apply_call request_times].
      + destruct (recordLookup_requests zip result m) as (-> & -> & -> & _).
        rewrite app_nil_r. repeat split; [exact M | exact T |].
        intros endpoint. rewrite endpoint_times_app. cbn. now rewrite app_nil_r.
      + split; [exact M|]. split.
        * cbn [recordRequest responseTimes_total]. rewrite M.
          rewrite push_capped_lastn; [| lia | rewrite T, lastn_length; lia].
          rewrite T. apply lastn_snoc. lia.
        * intros endpoint. rewrite endpoint_times_app.
          cbn [recordRequest responseTimes_byEndpoint endpoint_times].
          destruct (String.eqb_spec (_normalizeEndpoint (path (call_req c))) endpoint)
            as [->|NE].
          -- rewrite lookup_insert_eq. cbn [default].
             rewrite push_capped_lastn;
               [| lia | rewrite E, lastn_length; lia].
             rewrite E. apply lastn_snoc. lia.
          -- rewrite lookup_insert_ne by exact NE. now rewrite app_nil_r. }
  split; [exact T|]. split; [rewrite T, lastn_length; lia|].
  intros endpoint. split; [apply E | rewrite E, lastn_length; lia].
Qed.

Lemma response_time_windows_sample :
  let m := run_calls sample_run (new_Metrics 0) in
  responseTimes_total m = lastn 1000 (request_times sample_run)
  /\ (length (responseTimes_total m) <= 1000)%nat
  /\ forall endpoint,
       default [] (responseTimes_byEndpoint m !! endpoint)
       = lastn 100 (endpoint_times endpoint sample_run)
       /\ (length (default [] (responseTimes_byEndpoint m !! endpoint)) <= 100)%nat.
Proof. apply (response_time_windows 0 sample_run). reflexivity. Defined.

Section Counters.
Context {K : Type} `{Countable K}.

Lemma sum_counts_bump (o : gmap K Z) (k : K) :
  sum_counts (bump o k) = sum_counts o + 1.
Proof.
  unfold sum_counts, bump.
  assert (forall (m : gmap K Z) (j1 j2 : K) (z1 z2 y : Z),
            z1 + (z2 + y) = z2 + (z1 + y)) as C by (intros; lia).
  destruct (o !! k) as [v|] eqn:E; cbn [default].
  - rewrite <- (insert_delete_eq o k (v + 1)).
    rewrite map_fold_insert_L; [| intros; lia | apply lookup_delete_eq].
    rewrite (map_fold_delete_L _ 0 k v o); [lia | intros; lia | exact E].
  - rewrite map_fold_insert_L; [lia | intros; lia | exact E].
Qed.

End Counters.

(** The request counters agree: after any run from a fresh instance, on
    keys of its own, the total is the number of [recordRequest] calls, and
    the counts by endpoint, by status and by method each add up to it. *)
Theorem request_counters_add_up :
  forall (now : Z) (calls : list metrics_call),
    forallb own_keys calls = true ->
    let m := run_calls calls (new_Metrics now) in
    requests_total m = Z.of_nat (length (request_hours calls))
    /\ sum_counts (requests_byEndpoint m) = requests_total m
    /\ sum_counts (requests_byStatus m) = requests_total m
    /\ sum_counts (requests_byMethod m) = requests_total m.
Proof.
  intros now calls _ m. subst m.
  induction calls as [|c calls IH] using rev_ind.
  - cbn. unfold sum_counts. now rewrite !map_fold_empty.
  - rewrite run_calls_snoc, request_hours_app, length_app.
    destruct IH as (T & E & S & M).
    set (m := run_calls calls (new_Metrics now)) in *.
    destruct c as [zip result|c]; cbn [apply_call request_hours length].
    + destruct (recordLookup_requests zip result m) as (_ & _ & _ & -> & -> & -> & -> & _).
      rewrite Nat.add_0_r. auto.
    + cbn [recordRequest requests_total requests_byEndpoint requests_byStatus
             requests_byMethod].
      rewrite !sum_counts_bump, E, S, M, T. repeat split; lia.
Qed.

Lemma request_counters_add_up_sample :
  let m := run_calls sample_run (new_Metrics 0) in
  requests_total m = Z.of_nat (length (request_hours sample_run))
  /\ sum_counts (requests_byEndpoint m) = requests_total m
  /\ sum_counts (requests_byStatus m) = requests_total m
  /\ sum_counts (requests_byMethod m) = requests_total m.
Proof. apply (request_counters_add_up 0 sample_run). reflexivity. Defined.

(** ** Endpoints, continued *)

Lemma drop_digits_append s rest :
  all_digits s = true ->
  drop_digits (String.append s rest) = drop_digits rest.
Proof.
  induction s as [|c s IH]; [reflexivity|]. cbn [all_digits].
  intros D. apply andb_true_iff in D as [Dc D].
  rewrite append_cons. cbn [drop_digits]. rewrite Dc. now apply IH.
Qed.

Lemma strip_prefix_append p s : strip_prefix p (String.append p s) = Some s.
Proof.
  induction p as [|c p IH]; [now destruct s|].
  rewrite append_cons. cbn [strip_prefix]. now rewrite Ascii.eqb_refl.
Qed.

(** Every path of a lookup by code, whatever the code's digits and
    whatever follows them, is grouped under the one endpoint
    [/api/lookup/:zip]; what follows the digits is kept. *)
Theorem lookup_paths_share_endpoint :
  forall (code rest : string),
    code <> "" ->
    all_digits code = true ->
    drop_digits rest = rest ->
    _normalizeEndpoint (String.append "/api/lookup/" (String.append code rest))
    = String.append "/api/lookup/:zip" rest.
Proof.
  intros code rest NE D R.
  destruct code as [|d code]; [contradiction|].
  cbn [all_digits] in D. apply andb_true_iff in D as [Dd D].
  rewrite (append_cons d code rest).
  set (tail := String d (String.append code rest)).
  change (String.append "/api/lookup/" tail)
    with (String "/" (String.append "api/lookup/" tail)).
  cbn [_normalizeEndpoint].
  change (String "/" (String.append "api/lookup/" tail))
    with (String.append "/api/lookup/" tail).
  rewrite strip_prefix_append. subst tail. cbn iota. rewrite Dd.
  now rewrite (drop_digits_append code rest D), R.
Qed.

Lemma lookup_paths_share_endpoint_sample :
  _normalizeEndpoint (String.append "/api/lookup/" (String.append "00501" "/x"))
  = String.append "/api/lookup/:zip" "/x".
Proof.
  apply (lookup_paths_share_endpoint "00501" "/x"); [discriminate | reflexivity..].
Defined.

(** ** Hourly buckets, continued *)

Lemma before_all_spec hour (h : gmap string bucket) :
  before_all hour h = true ->
  forall k, is_Some (h !! k) -> by_code_units hour k = true.
Proof.
  unfold before_all. rewrite forallb_forall. intros F k [b Hk].
  apply F. apply list_elem_of_In. apply list_elem_of_fmap.
  exists (k, b). split; [reflexivity|]. now apply elem_of_map_to_list.
Qed.

(** When the clock has been set back behind all of 168 retained buckets,
    the cleaning deletes the bucket just created for the current hour, and
    the increment that follows re-creates it as [NaN]: the mapping then holds
    169 entries, the 168 old ones untouched and a bucket that is not a
    count. *)
Theorem clock_set_back :
  forall (h : gmap string bucket) (hour : string),
    size h = 168%nat ->
    h !! hour = None ->
    before_all hour h = true ->
    record_hour h hour = <[hour := CountNaN]> h
    /\ size (record_hour h hour) = 169%nat.
Proof.
  intros h hour S N B. pose proof (before_all_spec hour h B) as Hmin.
  assert (record_hour h hour = <[hour := CountNaN]> h) as E.
  { unfold record_hour. rewrite N. cbn [bucket_falsy].
    assert (size (<[hour := Count 0]> h) = 169%nat) as S'
      by (rewrite (map_size_insert_None _ _ _ N); lia).
    destruct (_cleanOldHours_oldest _ S') as (oldest & Ho & Hold & ->).
    assert (oldest = hour) as ->.
    { apply by_code_units_antisym.
      - apply Hold. rewrite lookup_insert_eq. eauto.
      - destruct (decide (hour = oldest)) as [<-|NE]; [apply by_code_units_refl|].
        apply Hmin. now rewrite lookup_insert_ne in Ho. }
    rewrite delete_insert_eq, (delete_id h hour N).
    unfold bucket_incr. now rewrite N. }
  split; [exact E|]. rewrite E, (map_size_insert_None _ _ _ N). lia.
Qed.

Lemma clock_set_back_sample :
  record_hour week_of_buckets "2025-05-31T23"
  = <["2025-05-31T23" := CountNaN]> week_of_buckets
  /\ size (record_hour week_of_buckets "2025-05-31T23") = 169%nat.
Proof.
  apply (clock_set_back week_of_buckets "2025-05-31T23"); vm_compute; reflexivity.
Defined.

Lemma nondecreasing_snoc hours x :
  nondecreasing (hours ++ [x]) = true ->
  nondecreasing hours = true /\ forall y, In y hours -> by_code_units y x = true.
Proof.
  induction hours as [|a hours IH]; [now split|].
  cbn [app]. intros ND. apply nondecreasing_cons in ND as [L ND].
  destruct (IH ND) as [ND' Le]. split.
  - destruct hours as [|b hours]; [reflexivity|].
    cbn [nondecreasing]. cbn in L. now rewrite L.
  - assert (by_code_units a x = true) as A.
    { destruct hours as [|b hours]; [exact L|]. cbn in L.
      apply (by_code_units_trans a b x); [exact L | apply Le; now left]. }
    intros y [<-|I]; [exact A | now apply Le].
Qed.

(** What a new hour does to the mapping when the clock has not gone
    backwards: the new bucket starts at 1, and the other buckets are the old
    ones, less the oldest when there were 168. *)
Lemma record_hour_new (h : gmap string bucket) x :
  (size h <= 168)%nat -> not_after h x -> h !! x = None ->
  exists h0,
    record_hour h x = <[x := Count 1]> h0
    /\ (forall k b, h0 !! k = Some b -> h !! k = Some b)
    /\ (forall k, is_Some (h !! k) -> h0 !! k = None ->
                  by_code_units k x = true /\ k <> x).
Proof.
  intros S NA N. destruct (Nat.eq_dec (size h) 168%nat) as [E|NE].
  - destruct (map_choose h) as (k0 & b0 & Hk0).
    { intros ->. rewrite map_size_empty in E. discriminate. }
    destruct (record_hour_evicts h x E N) as (oldest & Ho & _ & R).
    { exists k0. split; [eauto | apply NA; eauto]. }
    exists (delete oldest h). split; [exact R|]. split.
    + intros k b Hk. now apply lookup_delete_Some in Hk as [_ Hk].
    + intros k Hk D. apply lookup_delete_None in D as [<-|D].
      * split; [now apply NA|]. intros ->. rewrite N in Ho. now destruct Ho.
      * rewrite D in Hk. now destruct Hk.
  - exists h. split; [|split].
    + unfold record_hour. rewrite N. cbn [bucket_falsy].
      rewrite _cleanOldHours_small
        by (rewrite (map_size_insert_None _ _ _ N); lia).
      rewrite bucket_incr_zero by apply lookup_insert_eq.
      apply insert_insert_eq.
    + auto.
    + intros k [b Hk] D. rewrite D in Hk. discriminate.
Qed.

Lemma count_occ_snoc (l : list string) x k :
  count_occ string_dec (l ++ [x]) k
  = (count_occ string_dec l k + if string_dec x k then 1 else 0)%nat.
Proof. rewrite count_occ_app. cbn. now destruct (string_dec x k). Qed.

(** With a clock that never runs backwards, and on keys of its own, each
    bucket the mapping holds counts exactly the requests recorded in its
    hour, and none is [NaN] or zero; the hour of the latest request always
    has its bucket. *)
Theorem hourly_counts_exact :
  forall (now : Z) (calls : list metrics_call),
    forallb own_keys calls = true ->
    nondecreasing (request_hours calls) = true ->
    let h := hourlyRequests (run_calls calls (new_Metrics now)) in
    (forall k b, h !! k = Some b ->
                 b = Count (requests_in k calls) /\ 1 <= requests_in k calls)
    /\ (forall older c newer,
          calls = older ++ Request c :: newer -> request_hours newer = [] ->
          is_Some (h !! call_hour c)).
Proof.
  intros now calls _ ND h. subst h. unfold requests_in.
  assert ((forall k b, hourlyRequests (run_calls calls (new_Metrics now)) !! k = Some b ->
             In k (request_hours calls)
             /\ b = Count (Z.of_nat (count_occ string_dec (request_hours calls) k)))
          /\ (forall k, In k (request_hours calls) ->
                hourlyRequests (run_calls calls (new_Metrics now)) !! k = None ->
                exists z, In z (request_hours calls)
                          /\ by_code_units k z = true /\ k <> z)
          /\ (forall earlier x, request_hours calls = earlier ++ [x] ->
                is_Some (hourlyRequests (run_calls calls (new_Metrics now)) !! x)))
    as (I1 & _ & I3).
  { induction calls as [|c calls IH] using rev_ind.
    - split; [|split].
      + intros k b Hk. cbn in Hk. rewrite lookup_empty in Hk. discriminate.
      + intros k [].
      + intros earlier x E. now destruct earlier.
    - rewrite run_calls_snoc. rewrite request_hours_app in ND |- *.
      destruct c as [zip result|c]; cbn [apply_call request_hours] in *.
      + rewrite app_nil_r in *.
        destruct (recordLookup_requests zip result (run_calls calls (new_Metrics now)))
          as (_ & _ & _ & _ & _ & _ & _ & ->).
        now apply IH.
      + set (x := call_hour c) in *. set (hist := request_hours calls) in *.
        destruct (nondecreasing_snoc hist x ND) as [ND' Le].
        destruct (IH ND') as (I1 & I2 & _). clear IH.
        destruct (run_calls_hourly_bounded calls (new_Metrics now) x) as [S NA].
        { cbn. rewrite map_size_empty. lia. }
        { exact ND. }
        { intros k [b Hk]. cbn in Hk. rewrite lookup_empty in Hk. discriminate. }
        rewrite recordRequest_hourly.
        set (h := hourlyRequests (run_calls calls (new_Metrics now))) in *.
        destruct (h !! x) as [bx|] eqn:Hx.
        * destruct (I1 x bx Hx) as [Ix ->].
          assert (0 < count_occ string_dec hist x)%nat as Pos
            by now apply count_occ_In.
          assert (record_hour h x
                  = <[x := Count (Z.of_nat (count_occ string_dec hist x) + 1)]> h) as ->.
          { unfold record_hour. rewrite Hx. cbn [bucket_falsy].
            destruct (Z.eqb_spec (Z.of_nat (count_occ string_dec hist x)) 0); [lia|].
            unfold bucket_incr. now rewrite Hx. }
          split; [|split].
          -- intros k b Hk. rewrite count_occ_snoc.
             apply lookup_insert_Some in Hk as [[<- <-]|[NE Hk]].
             ++ split; [apply in_or_app; right; now left|].
                destruct (string_dec x x); [f_equal; lia | contradiction].
             ++ destruct (I1 k b Hk) as [Ik ->].
                split; [apply in_or_app; now left|].
                destruct (string_dec x k); [contradiction | f_equal; lia].
          -- intros k Ik N. apply lookup_insert_None in N as [N NE].
             apply in_app_or in Ik as [Ik|[<-|[]]]; [|contradiction].
             destruct (I2 k Ik N) as (z & Iz & Lz & NEz).
             exists z. split; [apply in_or_app; now left | now split].
          -- intros earlier y E. apply app_inj_tail in E as [_ <-].
             rewrite lookup_insert_eq. eauto.
        * assert (~ In x hist) as NI.
          { intros Ix. destruct (I2 x Ix Hx) as (z & Iz & Lz & NEz).
            apply NEz. apply by_code_units_antisym; [exact Lz | now apply Le]. }
          destruct (record_hour_new h x S NA Hx) as (h0 & -> & Sub & Gone).
          split; [|split].
          -- intros k b Hk. rewrite count_occ_snoc.
             apply lookup_insert_Some in Hk as [[<- <-]|[NE Hk]].
             ++ split; [apply in_or_app; right; now left|].
                rewrite (count_occ_not_In string_dec hist x) in NI. rewrite NI.
                destruct (string_dec x x); [reflexivity | contradiction].
             ++ destruct (I1 k b (Sub k b Hk)) as [Ik ->].
                split; [apply in_or_app; now left|].
                destruct (string_dec x k); [contradiction | f_equal; lia].
          -- intros k Ik N. apply lookup_insert_None in N as [N NE].
             apply in_app_or in Ik as [Ik|[<-|[]]]; [|contradiction].
             destruct (h !! k) as [b|] eqn:Hk.
             ++ destruct (Gone k ltac:(eauto) N) as [Lk NEk].
                exists x. split; [apply in_or_app; right; now left | now split].
             ++ destruct (I2 k Ik Hk) as (z & Iz & Lz & NEz).
                exists z. split; [apply in_or_app; now left | now split].
          -- intros earlier y E. apply app_inj_tail in E as [_ <-].
             rewrite lookup_insert_eq. eauto. }
  split.
  - intros k b Hk. destruct (I1 k b Hk) as [Ik ->]. split; [reflexivity|].
    apply (count_occ_In string_dec) in Ik. lia.
  - intros older c newer -> Hn. apply (I3 (request_hours older)).
    rewrite request_hours_app. cbn [request_hours]. now rewrite Hn.
Qed.

Lemma hourly_counts_exact_sample :
  let h := hourlyRequests (run_calls sample_run (new_Metrics 0)) in
  (forall k b, h !! k = Some b ->
               b = Count (requests_in k sample_run) /\ 1 <= requests_in k sample_run)
  /\ (forall older c newer,
        sample_run = older ++ Request c :: newer -> request_hours newer = [] ->
        is_Some (h !! call_hour c)).
Proof.
  apply (hourly_counts_exact 0 sample_run); vm_compute; reflexivity.
Defined.

(** ** Lookup statistics, continued *)

Lemma obj_sum_Permutation (o o' : jsobj Z) :
  Permutation o o' -> obj_sum o = obj_sum o'.
Proof. unfold obj_sum. induction 1; cbn; lia. Qed.

Lemma obj_sum_app (o o' : jsobj Z) : obj_sum (o ++ o') = obj_sum o + obj_sum o'.
Proof. unfold obj_sum. induction o as [|e o IH]; cbn; lia. Qed.

Lemma obj_replace_sum (o : jsobj Z) k v :
  has_key o k = true ->
  obj_sum (obj_replace o k v) = obj_sum o - default 0 (obj_get o k) + v.
Proof.
  unfold obj_sum, obj_get, has_key.
  induction o as [|[k' v'] o IH]; cbn; [discriminate|].
  destruct (String.eqb k k'); cbn; [lia|]. intros H. rewrite (IH H). lia.
Qed.

Lemma obj_bump_sum (o : jsobj Z) k : obj_sum (obj_bump o k) = obj_sum o + 1.
Proof.
  unfold obj_bump. destruct (has_key o k) eqn:H.
  - unfold obj_set. rewrite H, (obj_replace_sum o k _ H). lia.
  - rewrite <- (obj_sum_Permutation _ _ (obj_set_new o k _ H)).
    assert (obj_get o k = None) as ->.
    { unfold obj_get, has_key in *. induction o as [|[k' v'] o IH]; [reflexivity|].
      cbn in *. destruct (String.eqb k k'); [discriminate | now apply IH]. }
    unfold obj_sum. cbn. lia.
Qed.

Lemma obj_bump_positive (o : jsobj Z) k :
  Forall (fun e => 1 <= e.2) o -> Forall (fun e => 1 <= e.2) (obj_bump o k).
Proof.
  intros F. unfold obj_bump.
  assert (1 <= default 0 (obj_get o k) + 1) as P.
  { unfold obj_get. induction F as [|[k' v'] o Hv F IH]; cbn; [lia|].
    destruct (String.eqb k k'); [cbn in *; lia | exact IH]. }
  revert P. generalize (default 0 (obj_get o k) + 1). intros v P.
  destruct (has_key o k) eqn:H.
  - unfold obj_set. rewrite H. clear H.
    induction F as [|[k' v'] o Hv F IH]; cbn; [constructor|].
    destruct (String.eqb k k'); constructor; auto.
  - eapply Permutation_Forall; [apply (obj_set_new o k v H)|]. now constructor.
Qed.

Lemma _pruneTopZips_sum (o : jsobj Z) :
  NoDup (map fst o) -> Forall (fun e => 1 <= e.2) o ->
  obj_sum (_pruneTopZips o) <= obj_sum o
  /\ Forall (fun e => 1 <= e.2) (_pruneTopZips o).
Proof.
  intros ND F. destruct (_pruneTopZips_spec o ND) as (_ & _ & P & _).
  pose proof (Permutation_Forall P F) as F'. apply Forall_app in F' as [Fk Fd].
  split; [|exact Fk].
  rewrite (obj_sum_Permutation _ _ P), obj_sum_app.
  assert (0 <= obj_sum (skipn 500 (js_sort by_count_desc o))); [|lia].
  clear -Fd. unfold obj_sum. induction Fd; cbn; lia.
Qed.

(** On keys of its own, the per-state counters add up to the number of
    found lookups that carried a first location, each counted once under
    that location's state; the per-code counters are all at least 1 and
    never add up to more than the found count, pruning only taking away. *)
Theorem popularity_counts :
  forall (now : Z) (calls : list metrics_call),
    forallb own_keys calls = true ->
    let m := run_calls calls (new_Metrics now) in
    obj_sum (lookups_topStates m) = found_with_state calls
    /\ found_with_state calls <= lookups_found m
    /\ obj_sum (lookups_topZips m) <= lookups_found m
    /\ Forall (fun e => 1 <= e.2) (lookups_topZips m).
Proof.
  intros now calls _ m. subst m.
  assert (forall m0 : Metrics,
            topZips_bounded m0 ->
            Forall (fun e => 1 <= e.2) (lookups_topZips m0) ->
            obj_sum (lookups_topZips m0) <= lookups_found m0 ->
            let m := run_calls calls m0 in
            obj_sum (lookups_topStates m)
              = obj_sum (lookups_topStates m0) + found_with_state calls
            /\ lookups_found m0 + found_with_state calls <= lookups_found m
            /\ obj_sum (lookups_topZips m) <= lookups_found m
            /\ Forall (fun e => 1 <= e.2) (lookups_topZips m)) as G.
  { unfold run_calls.
    induction calls as [|[zip result|c] calls IH]; intros m0 B F L;
      cbn [fold_left found_with_state apply_call].
    - repeat split; [lia | lia | exact L | exact F].
    - pose proof (recordLookup_bounded zip result m0 B) as B'.
      assert (Forall (fun e => 1 <= e.2) (lookups_topZips (recordLookup zip result m0))
              /\ obj_sum (lookups_topZips (recordLookup zip result m0))
                 <= lookups_found (recordLookup zip result m0)
              /\ lookups_found (recordLookup zip result m0)
                 = lookups_found m0 + (if is_found result then 1 else 0)
              /\ obj_sum (lookups_topStates (recordLookup zip result m0))
                 = obj_sum (lookups_topStates m0)
                   + (if is_found result
                      then match first_state result with Some _ => 1 | None => 0 end
                      else 0)) as (F' & L' & Fd & St).
      { rewrite recordLookup_topZips. unfold recordLookup.
        destruct (is_found result); cbn [lookups_topZips lookups_found lookups_topStates
                                           with_lookups];
          [|split; [exact F|]; split; [exact L|]; split; lia].
        pose proof (obj_bump_positive _ zip F) as Fb.
        pose proof (obj_bump_sum (lookups_topZips m0) zip) as Sb.
        destruct B as [ND _]. pose proof (obj_bump_NoDup _ zip ND) as NDb.
        split; [|split; [|split]].
        - destruct (1000 <? length _)%nat; [|exact Fb].
          now apply _pruneTopZips_sum.
        - destruct (1000 <? length _)%nat; [|lia].
          destruct (_pruneTopZips_sum _ NDb Fb) as [Le _]. lia.
        - reflexivity.
        - destruct (first_state result); [apply obj_bump_sum | lia]. }
      destruct (IH _ B' F' L') as (S1 & S2 & S3 & S4).
      split; [|split; [|split]]; try assumption.
      + rewrite S1, St. lia.
      + rewrite Fd in S2. destruct (is_found result);
          [destruct (first_state result)|]; lia.
    - apply (IH (recordRequest (call_hour c) (call_req c) (call_status c)
                   (call_ms c) m0) B F L). }
  destruct (G (new_Metrics now)) as (S1 & S2 & S3 & S4).
  - apply new_Metrics_bounded.
  - constructor.
  - cbn. lia.
  - cbn in S1, S2. repeat split; [lia | lia | exact S3 | exact S4].
Qed.

Lemma popularity_counts_sample :
  let m := run_calls sample_run (new_Metrics 0) in
  obj_sum (lookups_topStates m) = found_with_state sample_run
  /\ found_with_state sample_run <= lookups_found m
  /\ obj_sum (lookups_topZips m) <= lookups_found m
  /\ Forall (fun e => 1 <= e.2) (lookups_topZips m).
Proof. apply (popularity_counts 0 sample_run). reflexivity. Defined.

(** ** The summary's ranking *)

Lemma StronglySorted_top (n : nat) (sorted : list (string * Z)) :
  StronglySorted (fun a b => by_count_desc a b = true) sorted ->
  StronglySorted (fun a b : top_entry => count b <= count a)
    (List.map (fun e => {| key := e.1; count := e.2 |}) (firstn n sorted)).
Proof.
  intros S. revert n. induction S as [|e l S IH F]; intros [|n]; cbn; try constructor.
  - apply IH.
  - apply Forall_forall. intros t Ht. apply list_elem_of_In, in_map_iff in Ht.
    destruct Ht as (e' & <- & He'). cbn.
    rewrite Forall_forall in F.
    assert (by_count_desc e e' = true) as B.
    { apply F, list_elem_of_In. rewrite <- (firstn_skipn n l). apply in_or_app. now left. }
    unfold by_count_desc in B. apply Z.leb_le in B. lia.
Qed.

(** The ranking of the summary: at most [n] entries, all of them entries of
    the counter object, in descending order of count, and no entry left out
    has a greater count than one that is listed. *)
Theorem getTopN_ranking :
  forall (obj : jsobj Z) (n : nat),
    let top := _getTopN obj n in
    length top = Nat.min n (length obj)
    /\ StronglySorted (fun a b : top_entry => count b <= count a) top
    /\ (forall t, In t top -> In (key t, count t) obj)
    /\ (forall e, In e obj ->
          In {| key := e.1; count := e.2 |} top
          \/ forall t, In t top -> e.2 <= count t).
Proof.
  intros obj n top. subst top. unfold _getTopN.
  pose proof (js_sort_Permutation by_count_desc obj) as P.
  pose proof (js_sort_StronglySorted by_count_desc by_count_desc_total
                by_count_desc_trans obj) as S.
  set (sorted := js_sort by_count_desc obj) in *.
  split; [|split; [|split]].
  - rewrite length_map, length_firstn, <- (Permutation_length P). reflexivity.
  - now apply StronglySorted_top.
  - intros t Ht. apply in_map_iff in Ht as ([k c] & <- & He). cbn.
    apply (Permutation_in _ (Permutation_sym P)).
    rewrite <- (firstn_skipn n sorted). apply in_or_app. now left.
  - intros e He. apply (Permutation_in _ P) in He.
    rewrite <- (firstn_skipn n sorted) in He. apply in_app_or in He as [He|He].
    + left. apply in_map_iff. now exists e.
    + right. intros t Ht. apply in_map_iff in Ht as (e' & <- & He'). cbn.
      pose proof (StronglySorted_firstn_skipn by_count_desc n sorted e' e S He' He) as B.
      unfold by_count_desc in B. apply Z.leb_le in B. lia.
Qed.

(** ** The build script *)

Lemma same_place_spec e entry : same_place e entry = true <-> place e = place entry.
Proof.
  unfold same_place, place. rewrite andb_true_iff, !String.eqb_eq.
  split; [intros [-> ->]; reflexivity | intros [= -> ->]; now split].
Qed.

Lemma build_lookup_snoc rawData record :
  build_lookup (rawData ++ [record]) = add_record (build_lookup rawData) record.
Proof. unfold build_lookup. now rewrite fold_left_app. Qed.

(** One step of the build: a record whose place its code already lists
    changes nothing; any other record is appended to the list of its code. *)
Lemma add_record_cases lookup record :
  (exists present loc,
     lookup !! record_zip record = Some present
     /\ In loc present /\ place loc = place (record_entry record)
     /\ add_record lookup record = lookup)
  \/ ((forall loc, In loc (default [] (lookup !! record_zip record)) ->
                   place loc <> place (record_entry record))
      /\ add_record lookup record
         = <[record_zip record :=
               default [] (lookup !! record_zip record) ++ [record_entry record]]> lookup).
Proof.
  unfold add_record.
  destruct (existsb _ (default [] (lookup !! record_zip record))) eqn:E.
  - left. apply existsb_exists in E as (loc & I & S). apply same_place_spec in S.
    destruct (lookup !! record_zip record) as [present|] eqn:L; [|contradiction I].
    exists present, loc. cbn in I. repeat split; try assumption.
    now apply insert_id.
  - right. split; [|reflexivity]. intros loc I S.
    apply same_place_spec in S.
    assert (existsb (fun e => same_place e (record_entry record))
              (default [] (lookup !! record_zip record)) = true) as T
      by (apply existsb_exists; eauto).
    congruence.
Qed.

Lemma build_lookup_inv :
  forall (rawData : list raw_record),
    (forall zip locs,
       build_lookup rawData !! zip = Some locs ->
       locs <> []
       /\ NoDup (List.map place locs)
       /\ forall loc, In loc locs ->
            exists record, In record rawData
                           /\ record_zip record = zip /\ record_entry record = loc)
    /\ (forall record,
          In record rawData ->
          exists locs loc,
            build_lookup rawData !! record_zip record = Some locs
            /\ In loc locs /\ place loc = place (record_entry record)).
Proof.
  induction rawData as [|record rawData IH] using rev_ind.
  - split; [|intros record []].
    intros zip locs H. cbn in H. rewrite lookup_empty in H. discriminate.
  - destruct IH as [A B]. rewrite build_lookup_snoc.
    destruct (add_record_cases (build_lookup rawData) record)
      as [(present & loc & L & I & S & ->)|[Fresh ->]].
    + split.
      * intros zip locs H. destruct (A zip locs H) as (NE & ND & From).
        repeat split; [exact NE | exact ND |].
        intros l Il. destruct (From l Il) as (r & Ir & Hr).
        exists r. split; [apply in_or_app; now left | exact Hr].
      * intros r Ir. apply in_app_or in Ir as [Ir|[<-|[]]]; [now apply B|].
        exists present, loc. now repeat split.
    + split.
      * intros zip locs H. apply lookup_insert_Some in H as [[<- <-]|[NE H]].
        -- split; [now destruct (default [] _)|]. split.
           ++ rewrite map_app. cbn. apply NoDup_app. split; [|split].
              ** destruct (build_lookup rawData !! record_zip record) as [present|] eqn:L;
                   [|constructor]. now destruct (A _ _ L) as (_ & ND & _).
              ** intros p Ip Iq. apply list_elem_of_In, in_map_iff in Ip.
                 destruct Ip as (loc & <- & Il).
                 apply list_elem_of_singleton in Iq. now apply (Fresh loc Il).
              ** apply NoDup_singleton.
           ++ intros loc Il. apply in_app_or in Il as [Il|[<-|[]]].
              ** destruct (build_lookup rawData !! record_zip record) as [present|] eqn:L;
                   [|contradiction Il].
                 destruct (A _ _ L) as (_ & _ & From).
                 destruct (From loc Il) as (r & Ir & Hr).
                 exists r. split; [apply in_or_app; now left | exact Hr].
              ** exists record. split; [apply in_or_app; right; now left | now split].
        -- destruct (A zip locs H) as (NEl & ND & From).
           repeat split; [exact NEl | exact ND |].
           intros l Il. destruct (From l Il) as (r & Ir & Hr).
           exists r. split; [apply in_or_app; now left | exact Hr].
      * intros r Ir. apply in_app_or in Ir as [Ir|[<-|[]]].
        -- destruct (B r Ir) as (locs & loc & L & Il & S).
           destruct (decide (record_zip record = record_zip r)) as [E|NE].
           ++ rewrite E, lookup_insert_eq. rewrite E in *. rewrite L. cbn [default].
              exists (locs ++ [record_entry record]), loc.
              repeat split; [apply in_or_app; now left | exact S].
           ++ rewrite lookup_insert_ne by exact NE. eauto.
        -- rewrite lookup_insert_eq. eexists _, (record_entry record).
           repeat split. apply in_or_app. right. now left.
Qed.

(** What the build script produces from raw data whose padded codes are
    no inherited names.  Every code of the lookup has at least one location,
    no two of them in the same city and state, each of them taken from a
    raw record with that code; and every raw record finds a location of its
    city and state under its code. *)
Theorem build_lookup_entries :
  forall (rawData : list raw_record),
    own_codes rawData = true ->
    (forall zip locs,
       build_lookup rawData !! zip = Some locs ->
       locs <> []
       /\ NoDup (List.map place locs)
       /\ forall loc, In loc locs ->
            exists record, In record rawData
                           /\ record_zip record = zip /\ record_entry record = loc)
    /\ (forall record,
          In record rawData ->
          exists locs loc,
            build_lookup rawData !! record_zip record = Some locs
            /\ In loc locs /\ place loc = place (record_entry record)).
Proof. intros rawData _. apply build_lookup_inv. Qed.

Lemma build_lookup_entries_sample :
  (forall zip locs,
     build_lookup sample_raw !! zip = Some locs ->
     locs <> []
     /\ NoDup (List.map place locs)
     /\ forall loc, In loc locs ->
          exists record, In record sample_raw
                         /\ record_zip record = zip /\ record_entry record = loc)
  /\ (forall record,
        In record sample_raw ->
        exists locs loc,
          build_lookup sample_raw !! record_zip record = Some locs
          /\ In loc locs /\ place loc = place (record_entry record)).
Proof. apply (build_lookup_entries sample_raw). reflexivity. Defined.

Lemma distinct_In seen l x :
  In x (distinct seen l) <-> In x l /\ ~ In x seen.
Proof.
  revert seen. induction l as [|y l IH]; intros seen; cbn; [tauto|].
  destruct (existsb (String.eqb y) seen) eqn:E.
  - apply existsb_exists in E as (z & Iz & Ez). apply String.eqb_eq in Ez. subst z.
    rewrite IH. split; [tauto|]. intros [[<-|I] N]; [contradiction | tauto].
  - assert (~ In y seen) as Ny.
    { intros I. assert (existsb (String.eqb y) seen = true) as T
        by (apply existsb_exists; exists y; split; [exact I | apply String.eqb_refl]).
      congruence. }
    cbn. rewrite IH. cbn. split.
    + intros [<-|[I N]]; [tauto|]. split; [tauto|]. intros Is. apply N. now right.
    + intros [[<-|I] N]; [now left|].
      destruct (String.eqb_spec y x) as [->|NE]; [now left|].
      right. split; [exact I|]. intros [Ey|Is]; [contradiction | contradiction].
Qed.

Lemma distinct_NoDup seen l : NoDup (distinct seen l).
Proof.
  revert seen. induction l as [|y l IH]; intros seen; cbn; [constructor|].
  destruct (existsb (String.eqb y) seen); [apply IH|].
  apply NoDup_cons. split; [|apply IH].
  rewrite list_elem_of_In, distinct_In. intros [_ N]. apply N. now left.
Qed.

(** The list of states the build script writes: every state of the raw
    data, each once, in ascending order. *)
Theorem build_states_sorted_distinct :
  forall (rawData : list raw_record),
    NoDup (build_states rawData)
    /\ StronglySorted (fun a b => by_code_units a b = true) (build_states rawData)
    /\ forall s, In s (build_states rawData)
                 <-> exists record, In record rawData /\ raw_state record = s.
Proof.
  intros rawData. unfold build_states.
  pose proof (js_sort_Permutation by_code_units
                (distinct [] (List.map raw_state rawData))) as P.
  split; [|split].
  - rewrite <- P. apply distinct_NoDup.
  - apply js_sort_StronglySorted; [apply by_code_units_total | apply by_code_units_trans].
  - intros s. split.
    + intros I. apply (Permutation_in _ (Permutation_sym P)) in I.
      apply distinct_In in I as [I _]. apply in_map_iff in I as (r & <- & Ir). eauto.
    + intros (r & Ir & <-). apply (Permutation_in _ P). apply distinct_In.
      split; [now apply in_map | intros []].
Qed.

Lemma padStart_digits s :
  all_digits (padStart 5 "0" s) = true -> all_digits s = true.
Proof.
  unfold padStart. destruct (5 <=? String.length s)%nat; [auto|].
  rewrite all_digits_append. intros H. now apply andb_true_iff in H.
Qed.

(** A raw code that pads to five digits is found again by its raw form. *)
Lemma normalized_record_zip record :
  test_5_digits (record_zip record) = true ->
  normalized (zip_code record) = record_zip record.
Proof.
  intros T. destruct (test_5_digits_inv _ T) as [L D].
  unfold normalized. unfold record_zip in *.
  rewrite (trim_digits _ (padStart_digits _ D)).
  rewrite <- L at 1. apply slice0_all.
Qed.

Lemma artifact_lookup lookup zip :
  artifact lookup !! zip = Many <$> (lookup !! zip).
Proof. unfold artifact. apply lookup_fmap. Qed.

(** From the raw data to an answer.  When the artifact built from raw
    data whose padded codes are no inherited names is loaded, every raw
    record whose code pads to five digits is found by a lookup of its raw
    code: the result carries the padded code and a non-empty list of
    locations, one of them in the record's city and state. *)
Theorem built_artifact_answers :
  forall (rawData : list raw_record) (record : raw_record),
    own_codes rawData = true ->
    In record rawData ->
    test_5_digits (record_zip record) = true ->
    exists r,
      lookup (loaded_from rawData) (zip_code record) = Some r
      /\ lookupZip (artifact (build_lookup rawData)) (VStr (record_zip record)) = Found r
      /\ zip r = record_zip record
      /\ locations r <> []
      /\ exists loc, In loc (locations r)
                     /\ city loc = raw_city record /\ state loc = raw_state record.
Proof.
  intros rawData record _ I T.
  destruct (build_lookup_inv rawData) as [A B].
  destruct (B record I) as (locs & loc & L & Il & S).
  destruct (A _ _ L) as (NE & _ & _).
  exists {| zip := record_zip record; locations := locs;
            hasMultiple := (1 <? length locs)%nat |}.
  split; [|split].
  - unfold lookup, loaded_from, lookup_normalizedZip. cbn [loaded data].
    rewrite (normalized_record_zip record T), T. cbn [negb].
    now rewrite artifact_lookup, L.
  - unfold lookupZip. rewrite (normalizeZip_five_digits _ T).
    now rewrite artifact_lookup, L.
  - cbn. repeat split; [exact NE|]. exists loc. split; [exact Il|].
    unfold place in S. cbn in S. now injection S.
Qed.

Lemma built_artifact_answers_sample :
  exists r,
    lookup (loaded_from sample_raw) (VNum 501) = Some r
    /\ lookupZip (artifact (build_lookup sample_raw)) (VStr "00501") = Found r
    /\ zip r = "00501"
    /\ locations r <> []
    /\ exists loc, In loc (locations r)
                   /\ city loc = "Holtsville" /\ state loc = "NY".
Proof.
  apply (built_artifact_answers sample_raw
           {| zip_code := VNum 501; raw_city := "Holtsville"; raw_state := "NY";
              raw_county := "Suffolk" |}); [reflexivity | now left | reflexivity].
Defined.

(** When every raw code pads to five digits, the artifact the build script
    produces has the data model's invariant: five-digit keys and value
    sequences of length at least 1. *)
Theorem built_artifact_invariant :
  forall (rawData : list raw_record),
    forallb (fun record => test_5_digits (record_zip record)) rawData = true ->
    Spec.table_invariant (artifact (build_lookup rawData)).
Proof.
  intros rawData F zip e H. rewrite artifact_lookup in H.
  destruct (build_lookup rawData !! zip) as [locs|] eqn:L; [|discriminate].
  cbn in H. injection H as <-.
  destruct (build_lookup_inv rawData) as [A _].
  destruct (A zip locs L) as (NE & _ & From). split; [|exact NE].
  destruct locs as [|loc locs]; [contradiction|].
  destruct (From loc ltac:(now left)) as (r & Ir & <- & _).
  rewrite forallb_forall in F. now apply F.
Qed.

Lemma built_artifact_invariant_sample :
  test_5_digits "12345" = true
  /\ entry_locations (Many [schenectady; rotterdam]) <> [].
Proof.
  apply (built_artifact_invariant sample_raw eq_refl "12345"
           (Many [schenectady; rotterdam])).
  vm_compute. reflexivity.
Defined.

(** The build of the sample: the number 501 is padded, the border code
    keeps its two cities in the order they first occur, and the repeated
    city keeps the county it came with first. *)
Example build_sample :
  build_lookup sample_raw !! "00501"
    = Some [ {| city := "Holtsville"; state := "NY"; county := "Suffolk" |} ]
  /\ build_lookup sample_raw !! "12345" = Some [schenectady; rotterdam]
  /\ build_states sample_raw = ["CA"; "NY"].
Proof. vm_compute. repeat split; reflexivity. Qed.

(** ** Percentiles, continued *)

Lemma StronglySorted_lookup_le (l : list Z) i j a b :
  StronglySorted Z.le l -> (i <= j)%nat ->
  l !! i = Some a -> l !! j = Some b -> a <= b.
Proof.
  intros S. revert i j. induction S as [|x l S IH F]; intros i j Le Hi Hj.
  - discriminate Hi.
  - destruct i as [|i], j as [|j]; cbn in Hi, Hj.
    + injection Hi as <-. injection Hj as <-. lia.
    + injection Hi as <-. rewrite Forall_forall in F. apply F.
      eapply list_elem_of_lookup_2. exact Hj.
    + lia.
    + apply (IH i j); [lia | exact Hi | exact Hj].
Qed.

Lemma exact_index_mono p q n : p <= q -> Spec.exact_index p n <= Spec.exact_index q n.
Proof.
  intros L. unfold Spec.exact_index, Spec.ceil_div.
  assert (- (q * Z.of_nat n) / 100 <= - (p * Z.of_nat n) / 100) as D.
  { apply Z.div_le_mono; [lia|].
    assert (p * Z.of_nat n <= q * Z.of_nat n) by (apply Z.mul_le_mono_nonneg_r; lia).
    lia. }
  revert D. generalize (- (q * Z.of_nat n) / 100), (- (p * Z.of_nat n) / 100).
  intros; lia.
Qed.

(** The percentiles of the summary are in order: on 1 to 1000 samples, as
    many as the buffer can hold, the 50th, 95th and 99th percentile are all
    samples, and p50 <= p95 <= p99. *)
Theorem percentiles_ordered :
  forall (arr : list Z),
    (1 <= length arr <= 1000)%nat ->
    exists p50 p95 p99,
      _percentile arr 50%float = Some p50
      /\ _percentile arr 95%float = Some p95
      /\ _percentile arr 99%float = Some p99
      /\ In p50 arr /\ In p95 arr /\ In p99 arr
      /\ p50 <= p95 <= p99.
Proof.
  intros arr L.
  destruct (percentile_used arr 50%float 50) as (a & Pa & La & Ia);
    [now left | exact L |].
  destruct (percentile_used arr 95%float 95) as (b & Pb & Lb & Ib);
    [right; now left | exact L |].
  destruct (percentile_used arr 99%float 99) as (c & Pc & Lc & Ic);
    [right; right; now left | exact L |].
  pose proof (Sorted_StronglySorted Z.le_trans (js_sort_ascending_Sorted arr)) as S.
  assert (forall p q, 0 <= p <= q ->
            (Z.to_nat (Spec.exact_index p (length arr))
             <= Z.to_nat (Spec.exact_index q (length arr)))%nat) as M.
  { intros p q Hpq. apply Z2Nat.inj_le; [| | apply exact_index_mono; lia];
      unfold Spec.exact_index; lia. }
  exists a, b, c. repeat split; try assumption.
  - apply (StronglySorted_lookup_le _ _ _ a b S (M 50 95 ltac:(lia)) La Lb).
  - apply (StronglySorted_lookup_le _ _ _ b c S (M 95 99 ltac:(lia)) Lb Lc).
Qed.

Lemma percentiles_ordered_sample :
  exists p50 p95 p99,
    _percentile [40; 10; 50; 30; 20] 50%float = Some p50
    /\ _percentile [40; 10; 50; 30; 20] 95%float = Some p95
    /\ _percentile [40; 10; 50; 30; 20] 99%float = Some p99
    /\ In p50 [40; 10; 50; 30; 20] /\ In p95 [40; 10; 50; 30; 20]
    /\ In p99 [40; 10; 50; 30; 20]
    /\ p50 <= p95 <= p99.
Proof. apply (percentiles_ordered [40; 10; 50; 30; 20]). cbn. lia. Defined.
